(* ===== verification/_CoqProject ===== *)
-Q . S2P
Prelude.v
Detector.v
Mailbox.v
Message.v
Dispatcher.v
System.v
Contract.v
Startup.v
Hardware.v
