(* ===== verification/Prelude.v ===== *)
(** * A verification development of the kilolib overhead controller (ohc.c)

    The program, [src/ohc.c], is the firmware of the overhead controller
    that relays packets received on a serial line to kilobots over an
    infrared transmitter.  It has two execution contexts that share global
    state:

    - the receive interrupt [ISR(USART_RX_vect)] (lines 151-173): a
      sliding-window frame detector.  It keeps the last [PACKET_SIZE] = 132
      received bytes in the circular buffer [packet_buffer] with the cursor
      [packet_head] and the running XOR [packet_checksum]; when the oldest
      byte of the window is [PACKET_HEADER] = 0x55 and the checksum is 0 it
      copies the window, oldest byte first, into [new_packet], sets
      [has_new_packet] and [packet_type];
    - the main loop of [main] (lines 74-146): a dispatcher that waits for
      [has_new_packet], clears it and runs one of six behaviours selected by
      [packet_type]; the two forwarding behaviours resend a message until a
      new packet arrives, the boot-page and GPS behaviours send a bounded
      series of messages with interrupts disabled.

    Before the loop, [main] configures the I/O registers (lines 35-61) and
    blinks both LEDs five times (lines 64-72); the LEDs are bits of
    [PORTD] and [PORTB] that the behaviours write too.  The message layout [message_t],
    [message_crc] and [message_send] come from kilolib's [message.h] and
    [message_crc.c], which are not part of [src/]: they are modelled from
    the specification (section 6, "Transport") and marked so in the map.

    ** Files, in dependency order

    - [Prelude.v] (this file): the notation scope [ohc_scope]; bytes as [Z]
      in [0,256) ([byte_ok]) and the uint8 wrap-around [u8]; array reads
      and writes that fail out of range ([load], [store], notations
      [a.[i]] and [a.[i := v]]), so that C's undefined behaviour is an
      error value and never a silent default; the C [for] loop [for_up]
      with its invariant rule [for_up_inv] and failure rule [for_up_fail];
      the copy loop [copy_range] (every [memcpy] and byte-copy loop of the
      program) with [copy_range_spec] and [copy_range_oob]; the XOR
      reduction [xor_all] and the ring-buffer rotation [rotate]; the
      tactics [ohc_decide] (decide a proposition on concrete data by
      evaluation), [ohc_lia] and [simplify_bool]; the register-bit lemmas
      [testbit_set_bit] and [testbit_clear_bit] ([R |= 1<<b] and
      [R &= ~(1<<b)] on [Z.testbit]); the hint databases [ohc], [ohc_rw]
      and [ohc_bits].
    - [Detector.v], Module [Window]: the frame detector of the interrupt,
      lines 8-9, 19-21 and 154-168 ([rx_update], [synced], [copy_frame]),
      its invariant [window_wf] (the checksum is the XOR of the buffer, the
      cursor is in range) and the abstract window [contents] (the queue of
      the last 132 bytes, oldest first) that it refines.
    - [Mailbox.v], Module [Store]: the globals [new_packet], [packet_type],
      [has_new_packet] (lines 22-24) and the whole handler
      [USART_RX_vect] (lines 151-173); [feed] runs it on a byte stream and
      [spec_isr] is the abstract handler it refines.
    - [Message.v], Module [Msg]: the [message_t] layout and the [Transport]
      class ([message_crc]: a 16-bit CRC of the ten bytes before the CRC
      field), with kilolib's CRC-CCITT as instance [kilolib_transport].
      [message.h] and [message_crc.c] are not under [src/]: this file is
      modelled from the specification (section 6) and marked so in the map.
    - [Dispatcher.v], Module [Main]: the main loop (lines 74-146) as a
      small-step machine [main_step] on a [state] record holding every
      global, the I bit of [SREG], a trace of [message_send] calls and LED
      writes, and a program counter [pc] naming the next C statement (with
      the loop index where a loop runs).  A statement that reads or writes
      shared state is one step.  [run n] runs [n] steps with no interrupt.
    - [System.v], Module [System]: the interleaving [step] of main-loop
      statements with the interrupt (taken only while the I bit is set),
      [reachable] from start-up, explicit schedules [exec], and the
      invariant [inv] of every reachable state.
    - [Contract.v], Module [Contract]: the specification's dispatch cycle
      (Idle, Take, Decode, one behaviour, Idle) as the abstract machine
      [dispatch_step] with the arrivals [arrive_step] of the environment,
      and the abstraction [abs] of program states.
    - [Startup.v], Module [Startup]: the power-on blink of lines 64-72
      ([power_on_blink]) and the state [boot_state] at line 74 after it.
    - [Hardware.v], Module [Hw]: the I/O registers as a map [ioreg] from
      the names [reg] to [Z]; [R = v], [R |= v], [R &= v] as [assign],
      [or_assign], [and_assign] with [Z.lor], [Z.land], [Z.lnot] and
      [Z.shiftl]; the bring-up [bring_up] (lines 36-61, [cli()] and
      [sei()] as the I bit of [SREG], returning the value of [tx_mask]),
      with [UBRR_VALUE] and [USE_2X] of [<util/setbaud.h>] as parameters;
      [led_write], the port write of each LED event of the trace, and
      [ports_after], a trace replayed on the registers.  The bit numbers
      of [<avr/iom328p.h>] and the reset values [reset_regs] of the data
      sheet are modelled from the device header.

    ** The theorems

    - Receive path (C1-C4, C16): the per-byte update keeps the checksum
      invariant and refines the abstract window (C1); the two copy loops
      compute the rotation of the buffer, a valid frame (C2); over any byte
      stream the handler refines the abstract handler (C3); a valid frame is
      published at its last byte after any traffic, overwriting an
      unconsumed one (C4); from start-up nothing is published before the
      132nd byte (C16).
    - Dispatcher (C6, C7, C11-C14): the behaviour of each packet type, by
      running the machine: the forwarding loops (C7, C12), the boot-page
      loop and its over-read of [new_packet] at [i = 126] (C6), the
      termination of the GPS loop whether or not a new packet is pending
      (C11), the toggle (C13), and which types do nothing but clear the flag:
      exactly [PACKET_STOP] and the values no [case] names (C14).
    - Whole program (C5, C8-C10, C15): in every reachable state the only
      fault is the boot-page over-read (C5); a forwarded message always
      carries the CRC of its payload and is never torn (C8); a schedule in
      which one toggle packet is applied twice, because the flag is cleared
      before [packet_type] is read (C9); the [!has_new_packet] test of the
      boot-page loop is dead after its first evaluation (C10); the blue LED
      shows [leds_toggle] (C15); every section with interrupts disabled
      ends within 46 statements, or faults at the over-read (C17); the
      cursor and every loop index stay in range, so no [uint8_t]
      increment wraps (C18); a raw-forwarded message is never torn (C19).
    - Contract (C20): every statement of the main loop is a step of the
      specification's dispatch cycle and every run of the interrupt an
      arrival (refinement by the abstraction [abs]).
    - Start-up (C21): the blink writes five pulses and leaves the blue LED
      off, and the invariant holds along every execution from line 74.
    - Hardware (C22-C24): from any register values the bring-up makes the
      LED and IR pins outputs, turns the IR LED off, enables reception,
      its interrupt and transmission with 8-bit characters, and sets the I
      bit, but leaves the parity and stop-bit fields as they were (C22),
      so the frame format is 8N1 only from the reset values; the LED events
      are the port writes, touching only the LED bits (C23); after
      bring-up and blink, in every reachable state the blue pin shows
      [leds_toggle], the green pin is low and the IR pin untouched by LED
      writes (C24).

    Each theorem with hypotheses has a witness lemma that applies it to
    concrete data and discharges the hypotheses by evaluation.

    ** Bounds and fuel

    [for_up] takes fuel; [copy_range] gives it [hi - lo + 1], one more than
    the iterations the loop can make, so it never runs out
    ([copy_range_spec] proves the result exists).  The machine [run n] is
    fuel for the main loop, which never terminates in C: its theorems
    state the exact number of steps ([13 + 2 n] for [n] forwarding
    transmissions, 46 steps to the boot over-read, at most 42 for the GPS
    handler, at most 46 to the end of a section with interrupts disabled,
    by the measure [cli_measure] on the loop index), so "enough fuel gives
    the result" is what they say.  Integers
    keep their C width where it matters: the [uint8_t] loop index [i] and
    [packet_head] wrap with [u8], and the theorems prove they never reach
    the wrap.

    ** Not modelled

    The registers' effect on the hardware (pin electrical levels, the
    baud rate generator, the vector table move) is the device's, not the
    program's: the model stops at the register values.  [UBRR_VALUE] and
    [USE_2X] are computed by [<util/setbaud.h>] at compile time and are
    parameters.  [tx_mask] is given its value; its use, by kilolib's
    transmitter, is outside [src/], and a [Send] event writes no port in
    [Hw].  [_delay_ms] changes no state.  The transmitter behind [message_send] and the
    receiving robots are outside the program: a send is an event of the
    trace.  The UART's two-byte receive buffer is not modelled: the
    environment chooses which bytes reach the handler, which includes
    bytes lost to an overrun. *)

From stdpp Require Import base list options numbers.
From Stdlib Require Import ZArith Lia.

Declare Scope ohc_scope.
Delimit Scope ohc_scope with ohc.
Open Scope Z_scope.
Open Scope ohc_scope.

Create HintDb ohc.
Create Rewrite HintDb ohc_rw.
Create Rewrite HintDb ohc_bits.

(** ** Bytes and fixed-width integers *)

(** A C [uint8_t] value. *)
Definition byte_ok (z : Z) : Prop := 0 <= z < 256.

#[export] Instance byte_ok_dec z : Decision (byte_ok z).
Proof. unfold byte_ok. apply _. Defined.

(** Wrap-around of an [uint8_t] after arithmetic ([x++] on an [uint8_t]). *)
Definition u8 (z : Z) : Z := z mod 256.

(** ** Arrays: reads and writes that fail out of range *)

(** [a[i]] as an rvalue: out of range is undefined behaviour, [None]. *)
Definition load (a : list Z) (i : Z) : option Z :=
  if decide (0 <= i) then a !! Z.to_nat i else None.

(** [a[i] = v]: out of range is undefined behaviour, [None]. *)
Definition store (a : list Z) (i v : Z) : option (list Z) :=
  if decide (0 <= i < Z.of_nat (length a)) then Some (<[Z.to_nat i := v]> a)
  else None.

Notation "a .[ i ]" := (load a i) (at level 1, i at level 200, format "a .[ i ]") : ohc_scope.
Notation "a .[ i := v ]" := (store a i v)
  (at level 1, i at level 200, v at level 200, format "a .[ i  :=  v ]") : ohc_scope.

(** ** The C [for] loop *)

(** [for (i = lo; i < hi; i++) body], the state threaded through [body];
    [fuel] bounds the iterations, and running out of it is [None] like an
    error of the body, so that a result is a proof of termination. *)
Fixpoint for_up {St : Type} (fuel : nat) (i hi : Z) (body : Z -> St -> option St)
    (s : St) : option St :=
  match fuel with
  | O => None
  | S f => if decide (i < hi) then s' ← body i s; for_up f (i + 1) hi body s' else Some s
  end.

(** The copy loop [for (j = lo; j < hi; j++) dst[j + d] = src[j + s];],
    run with exactly enough fuel for its [hi - lo] iterations. *)
Definition copy_range (dst src : list Z) (d s lo hi : Z) : option (list Z) :=
  for_up (S (Z.to_nat (hi - lo))) lo hi
    (fun j a => v ← src.[j + s]; a.[j + d := v]) dst.

(** ** XOR reduction and rotation *)

Definition xor_all (l : list Z) : Z := foldr Z.lxor 0 l.

(** The window read oldest-first from cursor [k]. *)
Definition rotate {A} (k : nat) (l : list A) : list A := drop k l ++ take k l.

(** ** Tactics *)

(** Equalities of XOR expressions, bit by bit. *)
Ltac xor_solve :=
  apply Z.bits_inj; intros ?n; rewrite ?Z.lxor_spec, ?Z.bits_0;
  repeat match goal with |- context [Z.testbit ?a ?n] => destruct (Z.testbit a n) end;
  reflexivity.

(** Closes a decidable proposition about concrete data by evaluation. *)
Ltac ohc_decide := apply (bool_decide_unpack _); vm_compute; reflexivity.

(** Linear arithmetic, also through [mod] and [/] by constants (loop
    indices that advance by a fixed stride). *)
Ltac ohc_lia := first [lia | Z.to_euclidean_division_equations; lia].

(** Turns boolean tests that have been decided into propositions. *)
Ltac simplify_bool :=
  repeat match goal with
  | H : _ && _ = true |- _ => apply andb_prop in H as [? ?]
  | H : bool_decide _ = true |- _ => apply bool_decide_eq_true in H
  | H : bool_decide _ = false |- _ => apply bool_decide_eq_false in H
  | H : negb _ = true |- _ => apply negb_true_iff in H
  end.

(** ** Bytes *)

Lemma u8_byte z : byte_ok (u8 z).
Proof. unfold byte_ok, u8. apply Z.mod_pos_bound. lia. Qed.

Lemma u8_small z : 0 <= z < 256 -> u8 z = z.
Proof. intros. unfold u8. apply Z.mod_small. lia. Qed.

Lemma byte_ok_div z : byte_ok z <-> 0 <= z /\ z / 256 = 0.
Proof.
  unfold byte_ok. split; intros.
  - split; [lia|]. apply Z.div_small. lia.
  - pose proof (Z.div_mod z 256 ltac:(lia)). pose proof (Z.mod_pos_bound z 256 ltac:(lia)). lia.
Qed.

Lemma byte_ok_lxor a b : byte_ok a -> byte_ok b -> byte_ok (Z.lxor a b).
Proof.
  rewrite !byte_ok_div. intros [Ha Ha'] [Hb Hb']. split.
  - apply Z.lxor_nonneg. lia.
  - change 256 with (2 ^ 8) in *. rewrite <- !Z.shiftr_div_pow2 in * by lia.
    rewrite Z.shiftr_lxor, Ha', Hb'. reflexivity.
Qed.

#[export] Hint Resolve u8_byte byte_ok_lxor : ohc.

(** ** Array reads and writes *)

Section Arrays.
Implicit Types (a : list Z) (i k v : Z).

Lemma load_in_range a i : 0 <= i < Z.of_nat (length a) -> is_Some a.[i].
Proof. intros. unfold load. rewrite decide_True by lia. apply lookup_lt_is_Some_2. lia. Qed.

Lemma load_out_of_range a i : ~ (0 <= i < Z.of_nat (length a)) -> a.[i] = None.
Proof.
  intros. unfold load. case_decide; [|done]. apply lookup_ge_None_2. lia.
Qed.

Lemma load_Some_range a i v : a.[i] = Some v -> 0 <= i < Z.of_nat (length a).
Proof.
  intros H. destruct (decide (0 <= i < Z.of_nat (length a))); [done|].
  rewrite load_out_of_range in H; done.
Qed.

Lemma store_in_range a i v :
  0 <= i < Z.of_nat (length a) -> a.[i := v] = Some (<[Z.to_nat i := v]> a).
Proof. intros. unfold store. by rewrite decide_True. Qed.

Lemma store_out_of_range a i v : ~ (0 <= i < Z.of_nat (length a)) -> a.[i := v] = None.
Proof. intros. unfold store. by rewrite decide_False. Qed.

Lemma load_insert_eq a i v :
  0 <= i < Z.of_nat (length a) -> (<[Z.to_nat i := v]> a).[i] = Some v.
Proof. intros. unfold load. rewrite decide_True by lia. apply list_lookup_insert_eq. lia. Qed.

Lemma load_insert_ne a i k v :
  0 <= i -> k <> i -> (<[Z.to_nat i := v]> a).[k] = a.[k].
Proof.
  intros. unfold load. case_decide; [|done]. apply list_lookup_insert_ne. lia.
Qed.

Lemma load_insert a i k v :
  0 <= i < Z.of_nat (length a) ->
  (<[Z.to_nat i := v]> a).[k] = if decide (k = i) then Some v else a.[k].
Proof.
  intros. case_decide; subst; [by apply load_insert_eq | by apply load_insert_ne; lia].
Qed.

(** Two arrays are equal when every read agrees. *)
Lemma load_ext a1 a2 : (forall k, a1.[k] = a2.[k]) -> a1 = a2.
Proof.
  intros H. apply list_eq. intros n. specialize (H (Z.of_nat n)).
  unfold load in H. rewrite !decide_True, Nat2Z.id in H by lia. exact H.
Qed.

Lemma load_nonneg a i : 0 <= i -> a.[i] = a !! Z.to_nat i.
Proof. intros. unfold load. by rewrite decide_True. Qed.

Lemma load_lookup a (n : nat) : a.[Z.of_nat n] = a !! n.
Proof. unfold load. rewrite decide_True, Nat2Z.id by lia. done. Qed.

End Arrays.

#[export] Hint Rewrite @length_insert : ohc_rw.

(** ** The [for] loop *)

(** The invariant rule of [for_up], with termination: if the body keeps
    [P] and never fails, enough fuel runs the loop to [hi]. *)
Lemma for_up_inv {St} (P : Z -> St -> Prop) (body : Z -> St -> option St) lo hi :
  (forall j s, lo <= j < hi -> P j s -> exists s', body j s = Some s' /\ P (j + 1) s') ->
  forall fuel i s, lo <= i <= hi -> (Z.to_nat (hi - i) < fuel)%nat -> P i s ->
  exists s', for_up fuel i hi body s = Some s' /\ P hi s'.
Proof.
  intros Hbody fuel. induction fuel as [|f IH]; intros i s Hi Hf HP; [lia|].
  simpl. case_decide.
  - destruct (Hbody i s) as (s' & -> & HP'); [lia|done|]. simpl. apply IH; [lia|lia|done].
  - assert (i = hi) by lia. subst. eauto.
Qed.

(** One iteration of the copy loop, and its exit. *)
Lemma copy_range_step dst src d s i hi :
  i < hi ->
  copy_range dst src d s i hi =
    v ← src.[i + s]; dst' ← dst.[i + d := v]; copy_range dst' src d s (i + 1) hi.
Proof.
  intros. unfold copy_range.
  replace (S (Z.to_nat (hi - i))) with (S (S (Z.to_nat (hi - (i + 1))))) by lia.
  cbn [for_up]. rewrite decide_True by lia. by destruct (src.[i + s]).
Qed.

Lemma copy_range_done dst src d s hi : copy_range dst src d s hi hi = Some dst.
Proof. unfold copy_range. rewrite Z.sub_diag. simpl. by rewrite decide_False by lia. Qed.

(** The copy loop writes [src[j + s]] at [j + d] for [lo <= j < hi] and
    leaves the rest of [dst]; it never fails when both ranges fit. *)
Lemma copy_range_spec dst src d s lo hi :
  0 <= lo <= hi -> 0 <= lo + d -> hi + d <= Z.of_nat (length dst) ->
  0 <= lo + s -> hi + s <= Z.of_nat (length src) ->
  exists r, copy_range dst src d s lo hi = Some r /\ length r = length dst /\
    (forall k, lo + d <= k < hi + d -> r.[k] = src.[k - d + s]) /\
    (forall k, ~ (lo + d <= k < hi + d) -> r.[k] = dst.[k]).
Proof.
  intros. unfold copy_range.
  eapply (for_up_inv (fun j a => length a = length dst /\
    (forall k, lo + d <= k < j + d -> a.[k] = src.[k - d + s]) /\
    (forall k, ~ (lo + d <= k < j + d) -> a.[k] = dst.[k])) _ lo hi).
  - intros j a Hj (Hlen & Hin & Hout).
    destruct (load_in_range src (j + s)) as [v Hv]; [lia|]. rewrite Hv; simpl.
    rewrite store_in_range by lia. eexists; split; [done|].
    split; [by rewrite length_insert|]. split; intros k Hk; rewrite load_insert by lia.
    + case_decide; [subst k; rewrite <- Hv; f_equal; lia|]. apply Hin. lia.
    + rewrite decide_False by lia. apply Hout. lia.
  - lia.
  - lia.
  - split; [done|]. split; intros k Hk; [lia|done].
Qed.

(** A loop whose body fails at iteration [j0], the earlier iterations
    keeping [P], fails: the error is not masked by later iterations. *)
Lemma for_up_fail {St} (P : Z -> St -> Prop) (body : Z -> St -> option St) lo hi j0 :
  lo <= j0 < hi ->
  (forall j s, lo <= j < j0 -> P j s -> exists s', body j s = Some s' /\ P (j + 1) s') ->
  (forall s, P j0 s -> body j0 s = None) ->
  forall fuel i s, lo <= i <= j0 -> P i s -> for_up fuel i hi body s = None.
Proof.
  intros Hj0 Hbody Hfail fuel. induction fuel as [|f IH]; intros i s Hi HP; [done|].
  simpl. rewrite decide_True by lia. destruct (decide (i = j0)) as [->|Hne].
  - by rewrite Hfail.
  - destruct (Hbody i s) as (s' & -> & HP'); [lia|done|]. simpl. apply IH; [lia|done].
Qed.

(** A copy whose source range runs past the end of [src] is an error. *)
Lemma copy_range_oob dst src d s lo hi :
  0 <= lo -> 0 <= lo + s <= Z.of_nat (length src) -> Z.of_nat (length src) < hi + s ->
  0 <= lo + d -> hi + d <= Z.of_nat (length dst) ->
  copy_range dst src d s lo hi = None.
Proof.
  intros. unfold copy_range.
  apply (for_up_fail (fun _ a => length a = length dst) _ lo hi (Z.of_nat (length src) - s));
    [lia | | | lia | done].
  - intros j a Hj Ha. destruct (load_in_range src (j + s)) as [v Hv]; [lia|].
    rewrite Hv; simpl. rewrite store_in_range by lia. eexists; split; [done|].
    by rewrite length_insert.
  - intros a _. rewrite load_out_of_range by lia. done.
Qed.

Lemma load_app (l1 l2 : list Z) k :
  (l1 ++ l2).[k] = if decide (k < Z.of_nat (length l1)) then l1.[k] else l2.[k - Z.of_nat (length l1)].
Proof.
  unfold load. repeat case_decide; try lia; try done.
  - by rewrite lookup_app_l by lia.
  - rewrite lookup_app_r by lia. f_equal. lia.
Qed.

Lemma load_neg (a : list Z) k : k < 0 -> a.[k] = None.
Proof. intros. unfold load. by rewrite decide_False by lia. Qed.

Lemma load_take (l : list Z) (n : nat) k :
  (n <= length l)%nat -> (take n l).[k] = if decide (0 <= k < Z.of_nat n) then l.[k] else None.
Proof.
  intros Hl. case_decide.
  - rewrite !load_nonneg, lookup_take by lia. by rewrite decide_True by lia.
  - destruct (decide (k < 0)); [by rewrite load_neg|].
    rewrite load_nonneg by lia. apply lookup_ge_None_2. rewrite length_take. lia.
Qed.

Lemma load_take_drop (l : list Z) (n d : nat) k :
  (n + d <= length l)%nat ->
  (take n (drop d l)).[k] = if decide (0 <= k < Z.of_nat n) then l.[k + Z.of_nat d] else None.
Proof.
  intros Hl. unfold load. case_decide as Hk; [case_decide|].
  - rewrite decide_True by lia. rewrite lookup_take, lookup_drop by lia. rewrite decide_True by lia.
    f_equal. lia.
  - apply lookup_ge_None_2. rewrite length_take, length_drop. lia.
  - case_decide; [lia|done].
Qed.

(** ** XOR reduction *)

Lemma xor_all_app l1 l2 : xor_all (l1 ++ l2) = Z.lxor (xor_all l1) (xor_all l2).
Proof. induction l1 as [|x l IH]; simpl; [done|]. rewrite IH. xor_solve. Qed.

Lemma xor_all_insert l (i : nat) x y :
  l !! i = Some x -> xor_all (<[i := y]> l) = Z.lxor (Z.lxor (xor_all l) x) y.
Proof.
  intros Hx. rewrite <- (take_drop_middle l i x Hx) at 2.
  rewrite insert_take_drop by (eapply lookup_lt_Some; eauto).
  rewrite !xor_all_app. simpl. xor_solve.
Qed.

Lemma xor_all_replicate_0 n : xor_all (replicate n 0) = 0.
Proof. induction n as [|n IH]; simpl; [done|]. by rewrite IH. Qed.

(** ** Rotation of a ring buffer *)

Lemma length_rotate {A} k (l : list A) : length (rotate k l) = length l.
Proof. unfold rotate. rewrite length_app, length_drop, length_take. lia. Qed.

Lemma xor_all_rotate k l : xor_all (rotate k l) = xor_all l.
Proof.
  unfold rotate. rewrite xor_all_app, Z.lxor_comm, <- xor_all_app. by rewrite take_drop.
Qed.

Lemma rotate_0 {A} (l : list A) : rotate 0 l = l.
Proof. unfold rotate. simpl. by rewrite app_nil_r. Qed.

Lemma lookup_rotate {A} (k : nat) (l : list A) (i : nat) :
  (k <= length l)%nat -> (i < length l)%nat ->
  rotate k l !! i =
    if decide (i < length l - k)%nat then l !! (k + i)%nat else l !! (i - (length l - k))%nat.
Proof.
  intros Hk Hi. unfold rotate. case_decide.
  - rewrite lookup_app_l by (rewrite length_drop; lia). apply lookup_drop.
  - rewrite lookup_app_r by (rewrite length_drop; lia). rewrite length_drop, lookup_take.
    rewrite decide_True by lia. done.
Qed.

(** Reading the rotated window at [k]: the part from the cursor to the
    end, then the part before the cursor. *)
Lemma load_rotate (l : list Z) h k :
  0 <= h < Z.of_nat (length l) ->
  (rotate (Z.to_nat h) l).[k] =
    if decide (0 <= k < Z.of_nat (length l) - h) then l.[k + h]
    else if decide (Z.of_nat (length l) - h <= k < Z.of_nat (length l))
         then l.[k - (Z.of_nat (length l) - h)]
    else None.
Proof.
  intros Hh. destruct (decide (0 <= k < Z.of_nat (length l))) as [Hk|Hk].
  - rewrite (load_nonneg _ k), lookup_rotate by lia. case_decide.
    + rewrite decide_True, load_nonneg by lia. f_equal. lia.
    + rewrite decide_False, decide_True, load_nonneg by lia. f_equal. lia.
  - rewrite load_out_of_range by (rewrite length_rotate; lia).
    rewrite !decide_False by lia. done.
Qed.

(** Writing the byte under the cursor and advancing the cursor (wrapping
    at the end) drops the oldest element of the window and appends the new
    one: the ring buffer is a queue. *)
Lemma rotate_insert_advance {A} (l : list A) (h : nat) x :
  (h < length l)%nat ->
  rotate (if decide (S h < length l)%nat then S h else 0%nat) (<[h := x]> l) =
    tail (rotate h l) ++ [x].
Proof.
  intros Hh. destruct (lookup_lt_is_Some_2 l h Hh) as [y Hy].
  unfold rotate at 2. rewrite (drop_S l y h Hy). simpl.
  case_decide.
  - unfold rotate. rewrite drop_insert_lt by lia.
    rewrite (take_S_r _ _ x) by (apply list_lookup_insert_eq; done).
    rewrite take_insert_ge by lia. by rewrite app_assoc.
  - rewrite rotate_0. rewrite drop_ge by lia. simpl.
    rewrite insert_take_drop by done. rewrite drop_ge by lia. done.
Qed.

#[export] Hint Rewrite @length_rotate xor_all_rotate xor_all_app : ohc_rw.

(** ** Register bits

    A C statement [R |= (1<<b)] sets bit [b] of [R] and [R &= ~(1<<b)]
    clears it; every other bit keeps its value.  These two lemmas, stated
    on [Z.testbit], carry the reasoning about the I/O registers. *)

Lemma testbit_shiftl_1 b i : 0 <= b -> Z.testbit (Z.shiftl 1 b) i = (i =? b).
Proof.
  intros Hb. rewrite Z.shiftl_1_l. destruct (Z.ltb_spec i 0).
  - rewrite Z.testbit_neg_r by done. symmetry. apply Z.eqb_neq. lia.
  - rewrite Z.pow2_bits_eqb by done. apply Z.eqb_sym.
Qed.

Lemma testbit_set_bit x b i :
  0 <= b -> Z.testbit (Z.lor x (Z.shiftl 1 b)) i = if i =? b then true else Z.testbit x i.
Proof.
  intros Hb. rewrite Z.lor_spec, testbit_shiftl_1 by done.
  destruct (i =? b); [apply orb_true_r | apply orb_false_r].
Qed.

Lemma testbit_clear_bit x b i :
  0 <= b -> Z.testbit (Z.land x (Z.lnot (Z.shiftl 1 b))) i = if i =? b then false else Z.testbit x i.
Proof.
  intros Hb. destruct (Z.ltb_spec i 0).
  - rewrite !Z.testbit_neg_r by done. by destruct (i =? b).
  - rewrite Z.land_spec, Z.lnot_spec, testbit_shiftl_1 by done.
    destruct (i =? b); [apply andb_false_r | apply andb_true_r].
Qed.

#[export] Hint Rewrite testbit_set_bit testbit_clear_bit using lia : ohc_bits.
