(* ===== verification/Detector.v ===== *)
(** * The sliding-window frame detector

    Lines 152-168 of [ISR(USART_RX_vect)] in [src/ohc.c]: the circular
    buffer [packet_buffer] of the last [PACKET_SIZE] received bytes, its
    cursor [packet_head] (the oldest byte, the next to be overwritten) and
    the running XOR [packet_checksum].  [rx_update] is the per-byte update
    (lines 154-159), [synced] the synchronisation test (lines 161-162) and
    [copy_frame] the two copy loops that linearise the window (lines
    163-168).  The abstract specification is the queue [contents w] of the
    last 132 bytes, oldest first; the refinement lemmas show that the
    circular buffer with its incremental checksum implements it. *)

From stdpp Require Import base list options numbers.
From Stdlib Require Import ZArith Lia.
From S2P Require Import Prelude.

Open Scope Z_scope.
Open Scope ohc_scope.

Module Window.

(** [#define PACKET_HEADER 0x55] *)
Definition PACKET_HEADER : Z := 85.

(** [#define PACKET_SIZE 128+4] *)
Definition PACKET_SIZE : Z := 128 + 4.

(** The globals [packet_buffer], [packet_head], [packet_checksum]
    (lines 19-21). *)
Record window := mkWindow {
  packet_buffer : list Z;
  packet_head : Z;
  packet_checksum : Z
}.

(** Their static zero initialisation. *)
Definition window_init : window := mkWindow (replicate 132 0) 0 0.

(** Lines 154-159: XOR out the byte under the cursor, overwrite it with
    [rx], XOR it in, advance the [uint8_t] cursor and wrap it at
    [PACKET_SIZE].  The XOR of two [uint8_t] values is an [uint8_t] value
    ([byte_ok_lxor]), so the implicit truncation of [^=] is the identity. *)
Definition rx_update (w : window) (rx : Z) : option window :=
  old ← (packet_buffer w).[packet_head w];
  let c := Z.lxor (packet_checksum w) old in
  buf ← (packet_buffer w).[packet_head w := rx];
  let c := Z.lxor c rx in
  let h := u8 (packet_head w + 1) in
  let h := if decide (h >= PACKET_SIZE) then 0 else h in
  Some (mkWindow buf h c).

(** Lines 161-162: the byte now under the cursor (the oldest one) is the
    header and the checksum is zero. *)
Definition synced (w : window) : option bool :=
  b ← (packet_buffer w).[packet_head w];
  Some (bool_decide (b = PACKET_HEADER) && bool_decide (packet_checksum w = 0)).

(** Lines 163-168: [num = PACKET_SIZE - packet_head];
    [new_packet[i] = packet_buffer[i + packet_head]] for [i < num], then
    [new_packet[i] = packet_buffer[i - num]] for [num <= i < PACKET_SIZE]. *)
Definition copy_frame (w : window) (new_packet : list Z) : option (list Z) :=
  let num := PACKET_SIZE - packet_head w in
  np ← copy_range new_packet (packet_buffer w) 0 (packet_head w) 0 num;
  copy_range np (packet_buffer w) 0 (- num) num PACKET_SIZE.

(** ** Invariant and abstract specification *)

(** The detector's invariant: 132 bytes, the cursor in range, and the
    checksum equal to the XOR of the whole window (spec section 3). *)
Definition window_wf (w : window) : Prop :=
  length (packet_buffer w) = 132%nat /\ 0 <= packet_head w < PACKET_SIZE /\
  Forall byte_ok (packet_buffer w) /\ packet_checksum w = xor_all (packet_buffer w).

#[export] Instance window_wf_dec w : Decision (window_wf w).
Proof. unfold window_wf. apply _. Defined.

(** The abstract window: the last 132 bytes received, oldest first. *)
Definition contents (w : window) : list Z :=
  rotate (Z.to_nat (packet_head w)) (packet_buffer w).

(** The abstract per-byte step: drop the oldest byte, append the new one. *)
Definition spec_feed (q : list Z) (rx : Z) : list Z := tail q ++ [rx].

(** The abstract synchronisation test: the window starts with the header
    and XORs to zero. *)
Definition spec_synced (q : list Z) : bool :=
  bool_decide (head q = Some PACKET_HEADER) && bool_decide (xor_all q = 0).

(** A frame the detector accepts (spec section 6): 132 bytes, the header
    first, and a zero XOR over the whole frame. *)
Definition valid_frame (f : list Z) : Prop :=
  length f = 132%nat /\ Forall byte_ok f /\ spec_synced f = true.

#[export] Instance valid_frame_dec f : Decision (valid_frame f).
Proof. unfold valid_frame. apply _. Defined.

(** A synchronised window in the middle of the buffer: cursor 5, the
    header at 5, type 1 at 6 and 84 at 8, so the XOR is 0. *)
Definition window_ex : window :=
  mkWindow (<[5%nat := 85]> (<[6%nat := 1]> (<[8%nat := 84]> (replicate 132 0)))) 5 0.

(** ** The detector refines the abstract window *)

Lemma window_init_wf : window_wf window_init.
Proof.
  unfold window_wf, window_init, PACKET_SIZE; cbn [packet_buffer packet_head packet_checksum].
  rewrite length_replicate, xor_all_replicate_0.
  repeat split; try lia. apply Forall_replicate. unfold byte_ok. lia.
Qed.

(** The advanced cursor, as a [nat]. *)
Lemma next_head_nat h :
  0 <= h < PACKET_SIZE ->
  Z.to_nat (if decide (u8 (h + 1) >= PACKET_SIZE) then 0 else u8 (h + 1)) =
  if decide (S (Z.to_nat h) < 132)%nat then S (Z.to_nat h) else 0%nat.
Proof. unfold PACKET_SIZE. intros. rewrite u8_small by lia. repeat case_decide; lia. Qed.

Lemma load_head w :
  window_wf w -> exists old, (packet_buffer w).[packet_head w] = Some old /\
    packet_buffer w !! Z.to_nat (packet_head w) = Some old /\ byte_ok old.
Proof.
  intros (Hlen & Hh & Hb & Hc). unfold PACKET_SIZE in *.
  destruct (lookup_lt_is_Some_2 (packet_buffer w) (Z.to_nat (packet_head w))) as [old Hold];
    [lia|].
  exists old. rewrite load_nonneg by lia. split_and!; [done|done|].
  exact (Forall_lookup_1 _ _ _ _ Hb Hold).
Qed.

Lemma head_contents w old :
  window_wf w -> packet_buffer w !! Z.to_nat (packet_head w) = Some old ->
  head (contents w) = Some old.
Proof.
  intros (Hlen & Hh & Hb & Hc) Hold. unfold contents, PACKET_SIZE in *.
  rewrite <- Hold, head_lookup, lookup_rotate by lia.
  rewrite decide_True by lia. f_equal. lia.
Qed.

(** The per-byte update (lines 154-159) keeps the window invariant and
    advances the abstract window by one byte. *)
Lemma rx_update_sim w rx :
  window_wf w -> byte_ok rx ->
  exists w', rx_update w rx = Some w' /\ window_wf w' /\
             contents w' = spec_feed (contents w) rx.
Proof.
  intros Hwf Hrx. destruct (load_head w Hwf) as (old & Hl & Hold & Hob).
  destruct Hwf as (Hlen & Hh & Hb & Hc). unfold rx_update.
  rewrite Hl; simpl. rewrite store_in_range by (unfold PACKET_SIZE in *; lia). simpl.
  eexists; split; [reflexivity|]. split.
  - unfold window_wf; simpl. rewrite length_insert. split; [done|]. split.
    + unfold PACKET_SIZE in *. rewrite u8_small by lia. case_decide; lia.
    + split; [by apply Forall_insert|]. rewrite (xor_all_insert _ _ old) by done. by rewrite Hc.
  - unfold contents; simpl. rewrite next_head_nat by done. rewrite <- Hlen.
    apply rotate_insert_advance. unfold PACKET_SIZE in *. lia.
Qed.

(** The synchronisation test computes the abstract one. *)
Lemma synced_refines w : window_wf w -> synced w = Some (spec_synced (contents w)).
Proof.
  intros Hwf. destruct (load_head w Hwf) as (old & Hl & Hold & _).
  unfold synced, spec_synced. rewrite Hl; simpl.
  rewrite (head_contents w old Hwf Hold). unfold contents. rewrite xor_all_rotate.
  destruct Hwf as (_ & _ & _ & ->). f_equal. repeat case_bool_decide; congruence.
Qed.

(** The two copy loops of lines 163-168 compute the rotation of the
    buffer that starts at the cursor. *)
Lemma copy_frame_rot w np :
  window_wf w -> length np = 132%nat -> copy_frame w np = Some (contents w).
Proof.
  intros (Hlen & Hh & Hb & Hc) Hnp. unfold copy_frame, PACKET_SIZE in *.
  destruct (copy_range_spec np (packet_buffer w) 0 (packet_head w) 0 (128 + 4 - packet_head w))
    as (np1 & -> & L1 & In1 & Out1); try lia.
  simpl.
  destruct (copy_range_spec np1 (packet_buffer w) 0 (- (128 + 4 - packet_head w))
              (128 + 4 - packet_head w) (128 + 4)) as (np2 & -> & L2 & In2 & Out2); try lia.
  f_equal. apply load_ext. intros k. unfold contents.
  rewrite load_rotate by lia. rewrite Hlen. case_decide; [|case_decide].
  - rewrite Out2, In1 by lia. f_equal. lia.
  - rewrite In2 by lia. f_equal. lia.
  - rewrite Out2, Out1 by lia. apply load_out_of_range. lia.
Qed.

(** Feeding a sequence of bytes to the abstract window keeps the last
    [length q] bytes of the stream. *)
Lemma spec_feed_fold q rxs :
  q <> [] -> fold_left spec_feed rxs q = drop (length rxs) (q ++ rxs).
Proof.
  revert q. induction rxs as [|r rs IH]; intros q Hq; simpl.
  - by rewrite app_nil_r.
  - rewrite IH.
    + unfold spec_feed. destruct q as [|x q]; [done|]. simpl. by rewrite <- app_assoc.
    + unfold spec_feed. intros Hnil. by apply app_eq_nil in Hnil as [_ ?].
Qed.

Lemma length_contents w : window_wf w -> length (contents w) = 132%nat.
Proof. intros (Hlen & _). unfold contents. by rewrite length_rotate. Qed.

Lemma contents_bytes w : window_wf w -> Forall byte_ok (contents w).
Proof.
  intros (_ & _ & Hb & _). unfold contents, rotate.
  apply Forall_app; split; [by apply Forall_drop | by apply Forall_take].
Qed.

(** ** The detector's properties *)

(** C1: Checksum invariant and refinement of the detector (lines
    154-162).  On a well-formed window (132 bytes, cursor in range, bytes
    in range, checksum equal to the XOR of all 132 bytes) and a received
    byte, the update never reads or writes out of range and keeps the
    invariant; the window read oldest-first from the new cursor is the old
    one with its oldest byte dropped and the received byte appended; and
    the synchronisation test of lines 161-162 succeeds exactly when that
    abstract window starts with 0x55 and XORs to zero. *)
Theorem detector_refines w rx :
  window_wf w -> byte_ok rx ->
  exists w', rx_update w rx = Some w' /\ window_wf w' /\
             contents w' = spec_feed (contents w) rx /\
             synced w' = Some (spec_synced (spec_feed (contents w) rx)).
Proof.
  intros Hw Hrx. destruct (rx_update_sim w rx Hw Hrx) as (w' & E & Hw' & Hc).
  exists w'. rewrite <- Hc. split_and!; [done..|]. by apply synced_refines.
Qed.

(** C2: The two copy loops of lines 163-168, whatever the cursor and
    whatever [new_packet] held, never fault and, when the test of lines
    161-162 has succeeded, fill [new_packet] with the 132 buffered bytes
    oldest first: a valid frame whose byte 0 is the header 0x55. *)
Theorem copy_frame_publishes w np :
  window_wf w -> length np = 132%nat -> synced w = Some true ->
  exists f, copy_frame w np = Some f /\ f = contents w /\ valid_frame f /\
            head f = Some PACKET_HEADER.
Proof.
  intros Hw Hnp Hs. rewrite (synced_refines w Hw) in Hs. injection Hs as Hs.
  exists (contents w). rewrite copy_frame_rot by done. split_and!; [done|done| |].
  - split_and!; [by apply length_contents | by apply contents_bytes | done].
  - unfold spec_synced in Hs. apply andb_prop in Hs as [Hh _]. by apply bool_decide_eq_true in Hh.
Qed.

(** ** Witnesses *)

(** C1 witness: the start-up window receiving the header byte. *)
Lemma detector_refines_witness :
  window_wf window_init /\ byte_ok 85 /\
  exists w', rx_update window_init 85 = Some w' /\ window_wf w' /\
             contents w' = spec_feed (contents window_init) 85 /\
             synced w' = Some (spec_synced (spec_feed (contents window_init) 85)).
Proof. split; [ohc_decide|]. split; [ohc_decide|]. apply detector_refines; ohc_decide. Defined.

(** C2 witness: a synchronised window whose cursor is not at 0. *)
Lemma copy_frame_publishes_witness :
  window_wf window_ex /\ length (replicate 132 0) = 132%nat /\ synced window_ex = Some true /\
  exists f, copy_frame window_ex (replicate 132 0) = Some f /\ f = contents window_ex /\
            valid_frame f /\ head f = Some PACKET_HEADER.
Proof.
  split; [ohc_decide|]. split; [ohc_decide|]. split; [ohc_decide|].
  apply copy_frame_publishes; ohc_decide.
Defined.

End Window.
