(* ===== verification/Mailbox.v ===== *)
(** * The single-slot frame store and the receive interrupt

    The globals [new_packet], [packet_type] and [has_new_packet] of
    [src/ohc.c] (lines 22-24) form a one-frame mailbox between the receive
    interrupt and the main loop.  [USART_RX_vect] is the whole interrupt
    handler (lines 151-173): the detector step of [Window], then, when the
    window is synchronised, the copy into [new_packet], [has_new_packet = 1]
    and [packet_type = new_packet[1]].  [feed] runs the handler on a stream
    of bytes, and [spec_isr] is the abstract handler on the queue of the
    last 132 bytes.  The theorems: over any stream the handler never
    faults, keeps both invariants and refines [spec_isr]; a valid frame fed
    after any traffic is published at its last byte, overwriting an
    unconsumed one (round trip, latest wins); from start-up nothing is
    published before the 132nd byte. *)

From stdpp Require Import base list options numbers.
From Stdlib Require Import ZArith Lia.
From S2P Require Import Prelude Detector.

Open Scope Z_scope.
Open Scope ohc_scope.

Module Store.
Import Window.

(** The globals [new_packet], [packet_type] (volatile) and [has_new_packet]
    (volatile, only ever 0 or 1, hence a [bool]). *)
Record store := mkStore {
  new_packet : list Z;
  packet_type : Z;
  has_new_packet : bool
}.

(** Their static zero initialisation. *)
Definition store_init : store := mkStore (replicate 132 0) 0 false.

(** [ISR(USART_RX_vect)], lines 151-173, on the detector state and the
    store; [rx] is the byte read from [UDR0].  The two nested [if]s of lines
    161-162 are the conjunction computed by [synced]. *)
Definition USART_RX_vect (w : window) (fs : store) (rx : Z) : option (window * store) :=
  w ← rx_update w rx;
  ok ← synced w;
  if (ok : bool) then
    np ← copy_frame w (new_packet fs);
    t ← np.[1];
    Some (w, mkStore np t true)
  else Some (w, fs).

(** The handler run on each byte of a stream, in order. *)
Fixpoint feed (w : window) (fs : store) (rxs : list Z) : option (window * store) :=
  match rxs with
  | [] => Some (w, fs)
  | rx :: rs => '(w', fs') ← USART_RX_vect w fs rx; feed w' fs' rs
  end.

(** The store after publishing frame [f]. *)
Definition published (f : list Z) : store := mkStore f (default 0 (f !! 1%nat)) true.

(** The abstract handler on the abstract window [q] (the last 132 bytes,
    oldest first) and the store: the window moves by one byte, and the
    store is overwritten by the new window exactly when it is a frame
    (header first, XOR zero). *)
Definition spec_isr (a : list Z * store) (rx : Z) : list Z * store :=
  let q := spec_feed a.1 rx in (q, if spec_synced q then published q else a.2).

(** The store's invariant: [new_packet] holds 132 bytes, [packet_type] is
    its byte 1, and it is the start-up buffer or a valid frame. *)
Definition store_wf (fs : store) : Prop :=
  length (new_packet fs) = 132%nat /\ Forall byte_ok (new_packet fs) /\
  new_packet fs !! 1%nat = Some (packet_type fs) /\
  (new_packet fs = replicate 132 0 \/ valid_frame (new_packet fs)).

#[export] Instance store_wf_dec fs : Decision (store_wf fs).
Proof. unfold store_wf. apply _. Defined.

(** A valid frame of type [PACKET_FORWARDMSG] (2): header, type, zero
    payload, and a last byte that makes the XOR zero. *)
Definition frame_ex : list Z := 85 :: 2 :: replicate 129 0 ++ [87].

(** A second valid frame, of type [PACKET_LEDTOGGLE] (1). *)
Definition frame_ex2 : list Z := 85 :: 1 :: replicate 129 0 ++ [84].

(** ** The handler *)

Lemma store_init_wf : store_wf store_init.
Proof.
  unfold store_wf, store_init; cbn [new_packet packet_type].
  rewrite length_replicate. split_and!; [done| |done|by left].
  apply Forall_replicate. unfold byte_ok. lia.
Qed.

Lemma published_wf f : valid_frame f -> store_wf (published f).
Proof.
  intros Hf. pose proof Hf as (Hl & Hb & _).
  destruct (lookup_lt_is_Some_2 f 1) as [t Ht]; [lia|].
  unfold store_wf, published; cbn [new_packet packet_type]. rewrite Ht. naive_solver.
Qed.

(** One run of the handler on a well-formed state: it never faults, the
    detector moves by one byte, and the store is overwritten exactly when
    the new window is a frame. *)
Lemma isr_sim w fs rx :
  window_wf w -> store_wf fs -> byte_ok rx ->
  exists w', window_wf w' /\ contents w' = spec_feed (contents w) rx /\
    USART_RX_vect w fs rx =
      Some (w', if spec_synced (contents w') then published (contents w') else fs).
Proof.
  intros Hw Hs Hrx. destruct (rx_update_sim w rx Hw Hrx) as (w' & E & Hw' & Hc).
  exists w'. split_and!; [done|done|].
  unfold USART_RX_vect. rewrite E; simpl. rewrite (synced_refines w' Hw'); simpl.
  destruct (spec_synced (contents w')); [|done].
  rewrite copy_frame_rot by (done || apply Hs). simpl.
  destruct (lookup_lt_is_Some_2 (contents w') 1) as [t Ht]; [rewrite length_contents by done; lia|].
  replace ((contents w').[1]) with (contents w' !! 1%nat)
    by (rewrite load_nonneg by lia; reflexivity).
  rewrite Ht. simpl. unfold published. by rewrite Ht.
Qed.


Lemma synced_valid w : window_wf w -> spec_synced (contents w) = true -> valid_frame (contents w).
Proof. intros. split_and!; [by apply length_contents | by apply contents_bytes | done]. Qed.

Lemma feed_app w fs l1 l2 :
  feed w fs (l1 ++ l2) = '(w', fs') ← feed w fs l1; feed w' fs' l2.
Proof.
  revert w fs. induction l1 as [|r l1 IH]; intros w fs; simpl; [done|].
  destruct (USART_RX_vect w fs r) as [[w' fs']|]; simpl; [apply IH|done].
Qed.

(** Any stream of bytes: the handler never faults, both invariants hold
    after every byte, and the window holds the stream's last bytes. *)
Lemma feed_spec w fs rxs :
  window_wf w -> store_wf fs -> Forall byte_ok rxs ->
  exists w' fs', feed w fs rxs = Some (w', fs') /\ window_wf w' /\ store_wf fs' /\
    contents w' = fold_left spec_feed rxs (contents w).
Proof.
  intros Hw Hs Hb. revert w fs Hw Hs. induction Hb as [|r rs Hr Hrs IH]; intros w fs Hw Hs.
  - simpl. by exists w, fs.
  - destruct (isr_sim w fs r Hw Hs Hr) as (w1 & Hw1 & Hc1 & E). simpl. rewrite E.
    simpl. rewrite <- Hc1. apply IH; [done|].
    destruct (spec_synced (contents w1)) eqn:Hsy; [|done]. by apply published_wf, synced_valid.
Qed.

(** ** Streams of bytes *)

(** The abstract window after a stream: its last 132 bytes. *)
Lemma fold_contents w rxs :
  window_wf w -> fold_left spec_feed rxs (contents w) = drop (length rxs) (contents w ++ rxs).
Proof.
  intros Hw. apply spec_feed_fold. intros H. pose proof (length_contents w Hw) as Hl.
  rewrite H in Hl. done.
Qed.

(** The last byte of a stream decides what the store holds at its end. *)
Lemma feed_snoc w fs rs r :
  window_wf w -> store_wf fs -> Forall byte_ok (rs ++ [r]) ->
  exists w1 fs1 w2, feed w fs rs = Some (w1, fs1) /\ store_wf fs1 /\ window_wf w2 /\
    contents w2 = drop (length (rs ++ [r])) (contents w ++ rs ++ [r]) /\
    feed w fs (rs ++ [r]) =
      Some (w2, if spec_synced (contents w2) then published (contents w2) else fs1).
Proof.
  intros Hw Hs Hb. apply Forall_app in Hb as [Hbs Hbr]. inversion Hbr as [|? ? Hr _]; subst.
  destruct (feed_spec w fs rs Hw Hs Hbs) as (w1 & fs1 & E1 & Hw1 & Hs1 & Hc1).
  destruct (isr_sim w1 fs1 r Hw1 Hs1 Hr) as (w2 & Hw2 & Hc2 & E2).
  exists w1, fs1, w2. split_and!; [done|done|done| |].
  - rewrite <- fold_contents, fold_left_app by done. simpl. by rewrite <- Hc1.
  - rewrite feed_app, E1. simpl. by rewrite E2.
Qed.

Lemma startup_head k rxs : (k < 132)%nat -> head (drop k (replicate 132 0 ++ rxs)) = Some 0.
Proof.
  intros. rewrite head_lookup, lookup_drop, lookup_app_l by (rewrite length_replicate; lia).
  apply lookup_replicate_2. lia.
Qed.

Lemma startup_quiet rxs :
  (length rxs < 132)%nat -> Forall byte_ok rxs ->
  exists w, feed window_init store_init rxs = Some (w, store_init).
Proof.
  induction rxs as [|r rs IH] using rev_ind; intros Hl Hb; [by eexists|].
  rewrite length_app in Hl; simpl in Hl.
  destruct (feed_snoc window_init store_init rs r) as (w1 & fs1 & w2 & E1 & _ & _ & Hc2 & ->);
    [apply window_init_wf | apply store_init_wf | done |].
  destruct IH as [w1' E1']; [lia | by apply Forall_app in Hb as [] |].
  rewrite E1 in E1'. injection E1' as -> ->. exists w2.
  unfold spec_synced. rewrite Hc2. change (contents window_init) with (rotate 0 (replicate 132 0)).
  rewrite rotate_0, startup_head by (rewrite length_app; simpl; lia). done.
Qed.

(** A valid frame fed byte by byte from any well-formed state is
    published at its last byte. *)
Lemma feed_frame w fs f :
  window_wf w -> store_wf fs -> valid_frame f ->
  exists w', feed w fs f = Some (w', published f) /\ window_wf w' /\ contents w' = f.
Proof.
  intros Hw Hs Hf. pose proof Hf as (Hl & Hb & Hsy).
  destruct (exists_last (l := f)) as (fr & x & ->); [by intros ->|].
  destruct (feed_snoc w fs fr x) as (w1 & fs1 & w2 & _ & _ & Hw2 & Hc2 & ->); [done..|].
  assert (contents w2 = fr ++ [x]) as Hc.
  { rewrite Hc2. apply drop_app_length'. by rewrite length_contents, Hl. }
  rewrite Hc, Hsy. eauto.
Qed.

(** ** Properties of the receive path *)

(** C3: Refinement of the receive interrupt over any stream.  From a
    well-formed detector and store, running [ISR(USART_RX_vect)] on each
    byte of any stream never faults, keeps both invariants, and computes
    what the abstract handler [spec_isr] computes on the queue of the last
    132 bytes: the concrete circular buffer, its running checksum and the
    two copy loops implement "publish the last 132 bytes whenever they
    start with 0x55 and XOR to zero". *)
Theorem feed_refines w fs rxs :
  window_wf w -> store_wf fs -> Forall byte_ok rxs ->
  exists w' fs', feed w fs rxs = Some (w', fs') /\ window_wf w' /\ store_wf fs' /\
    (contents w', fs') = fold_left spec_isr rxs (contents w, fs).
Proof.
  intros Hw Hs Hb. revert w fs Hw Hs. induction Hb as [|r rs Hr Hrs IH]; intros w fs Hw Hs.
  - by exists w, fs.
  - destruct (isr_sim w fs r Hw Hs Hr) as (w1 & Hw1 & Hc1 & E). simpl. rewrite E. simpl.
    unfold spec_isr at 2. simpl. rewrite <- Hc1. apply IH; [done|].
    destruct (spec_synced (contents w1)) eqn:Hsy; [|done]. by apply published_wf, synced_valid.
Qed.

(** C4: Round trip, latest wins.  From any well-formed detector and store
    state, after any stream of bytes (which may itself have published a
    frame the main loop never consumed), feeding the 132 bytes of a valid
    frame (header 0x55, zero XOR) makes the handler publish exactly that
    frame: [new_packet] is the frame, [packet_type] its byte 1 and
    [has_new_packet] is set.  Earlier frames are overwritten, not queued. *)
Theorem frame_roundtrip w fs p f :
  window_wf w -> store_wf fs -> Forall byte_ok p -> valid_frame f ->
  exists w', feed w fs (p ++ f) = Some (w', published f) /\ window_wf w' /\ contents w' = f.
Proof.
  intros Hw Hs Hp Hf. destruct (feed_spec w fs p Hw Hs Hp) as (w1 & fs1 & E1 & Hw1 & Hs1 & _).
  rewrite feed_app, E1. simpl. by apply feed_frame.
Qed.

(** C16: Start-up.  From the zero-initialised globals, the first valid frame
    fed byte by byte is detected exactly at its 132nd byte: after each of
    its first 131 bytes nothing is published (the store is unchanged and
    [has_new_packet] is still 0), and after the last one the frame is
    published. *)
Theorem startup_first_frame f :
  valid_frame f ->
  (forall k, (k < 132)%nat -> exists w, feed window_init store_init (take k f) = Some (w, store_init)) /\
  (exists w, feed window_init store_init f = Some (w, published f)).
Proof.
  intros Hf. pose proof Hf as (Hl & Hb & _). split.
  - intros k Hk. apply startup_quiet; [rewrite length_take; lia | by apply Forall_take].
  - destruct (feed_frame window_init store_init f) as (w & E & _);
      [apply window_init_wf | apply store_init_wf | done | eauto].
Qed.

(** ** Witnesses *)

(** C3 witness: the frame [frame_ex] fed from start-up. *)
Lemma feed_refines_witness :
  window_wf window_init /\ store_wf store_init /\ Forall byte_ok frame_ex /\
  exists w' fs', feed window_init store_init frame_ex = Some (w', fs') /\ window_wf w' /\
    store_wf fs' /\ (contents w', fs') = fold_left spec_isr frame_ex (contents window_init, store_init).
Proof. split_and!; [ohc_decide.. | apply feed_refines; ohc_decide]. Defined.

(** C4 witness: [frame_ex2] after the unconsumed [frame_ex], from start-up. *)
Lemma frame_roundtrip_witness :
  window_wf window_init /\ store_wf store_init /\ Forall byte_ok frame_ex /\ valid_frame frame_ex2 /\
  exists w', feed window_init store_init (frame_ex ++ frame_ex2) = Some (w', published frame_ex2) /\
             window_wf w' /\ contents w' = frame_ex2.
Proof. split_and!; [ohc_decide.. | apply frame_roundtrip; ohc_decide]. Defined.

(** C16 witness: [frame_ex] from start-up. *)
Lemma startup_first_frame_witness :
  valid_frame frame_ex /\
  (forall k, (k < 132)%nat ->
     exists w, feed window_init store_init (take k frame_ex) = Some (w, store_init)) /\
  (exists w, feed window_init store_init frame_ex = Some (w, published frame_ex)).
Proof. split; [ohc_decide | apply startup_first_frame; ohc_decide]. Defined.

End Store.
