(* ===== verification/Message.v ===== *)
(** * The message record and the transport collaborator

    [message_t msg] (line 26 of [src/ohc.c]) is the record the dispatcher
    fills and hands to [message_send]; its layout, [message_crc] and
    [message_send] come from kilolib's [message.h] and [message_crc.c],
    which are not part of [src/] and are modelled from the specification
    (sections 3 and 6).  The record is 12 bytes on the AVR (no padding):
    nine payload bytes, the type byte at offset 9 and the 16-bit CRC at
    offsets 10-11, little-endian.  The boot-page view [bootmsg_t] of the
    payload is [page_address] (0), [page_offset] (1), three 16-bit words
    (2-7) and [unused] (8); the GPS view [gpsmsg_t] is the [id] byte (0),
    six coordinate bytes (1-6) and a 16-bit [unused] (7-8).

    [Transport] is the interface the dispatcher relies on: a CRC of the
    bytes before the CRC field, in range for the 16-bit field.  The
    instance [kilolib_transport] is kilolib's CRC-CCITT, used by the
    witnesses. *)

From stdpp Require Import base list options numbers.
From Stdlib Require Import ZArith Lia.
From S2P Require Import Prelude.

Open Scope Z_scope.
Open Scope ohc_scope.

Module Msg.

(** [sizeof(message_t)] and [sizeof(msg.crc)]. *)
Definition MESSAGE_SIZE : Z := 12.
Definition CRC_SIZE : Z := 2.

(** Field offsets of [message_t]. *)
Definition TYPE_OFS : Z := 9.
Definition CRC_OFS : Z := 10.

(** The [message_type_t] values the controller sends. *)
Definition GPS : Z := 1.
Definition BOOTPGM_PAGE : Z := 129.

(** Field offsets of [bootmsg_t] and [gpsmsg_t] inside the payload. *)
Definition BOOT_PAGE_ADDRESS : Z := 0.
Definition BOOT_PAGE_OFFSET : Z := 1.
Definition BOOT_WORD1 : Z := 2.
Definition BOOT_UNUSED : Z := 8.
Definition GPS_ID : Z := 0.
Definition GPS_UNUSED : Z := 7.

(** The zero-initialised global [msg]. *)
Definition message_init : list Z := replicate 12 0.

(** What the dispatcher needs of the transport: [message_crc] computes
    the 16-bit CRC of the bytes before the CRC field. *)
Class Transport := {
  message_crc : list Z -> Z;
  message_crc_range m : 0 <= message_crc m < 65536;
  message_crc_prefix m1 m2 : take 10 m1 = take 10 m2 -> message_crc m1 = message_crc m2
}.

(** [msg.crc = c]: the [uint16_t] field stored little-endian. *)
Definition set_crc (m : list Z) (c : Z) : option (list Z) :=
  m ← m.[CRC_OFS := Z.land c 255];
  m.[CRC_OFS + 1 := Z.shiftr c 8].

(** avr-libc's [_crc_ccitt_update]: [data ^= lo8(crc); data ^= data << 4]
    (on an [uint8_t]), then
    [((data << 8) | hi8(crc)) ^ (data >> 4) ^ (data << 3)]. *)
Definition crc_ccitt_update (crc data : Z) : Z :=
  let data := Z.lxor data (Z.land crc 255) in
  let data := u8 (Z.lxor data (Z.shiftl data 4)) in
  Z.lxor (Z.lxor (Z.lor (Z.shiftl data 8) (Z.shiftr crc 8)) (Z.shiftr data 4))
         (Z.shiftl data 3) mod 65536.

(** kilolib's [message_crc]: the update folded over the 10 bytes before
    the CRC field, from [0xFFFF]. *)
Definition kilolib_crc (m : list Z) : Z := fold_left crc_ccitt_update (take 10 m) 65535.

(** The kilolib transport: its CRC is in range (every update is reduced
    modulo 2^16) and reads only the first 10 bytes. *)
#[export, refine] Instance kilolib_transport : Transport := {| message_crc := kilolib_crc |}.
Proof.
  - intros m. unfold kilolib_crc.
    induction (take 10 m) as [|x l _] using rev_ind; simpl; [lia|].
    rewrite fold_left_app. simpl. unfold crc_ccitt_update. apply Z.mod_pos_bound. lia.
  - intros m1 m2 E. unfold kilolib_crc. by rewrite E.
Defined.

(** ** The CRC field *)

(** Writing the CRC field of a 12-byte message never faults and changes
    only bytes 10 and 11. *)
Lemma set_crc_spec m c :
  length m = 12%nat ->
  exists m', set_crc m c = Some m' /\ length m' = 12%nat /\
    m'.[CRC_OFS] = Some (Z.land c 255) /\ m'.[CRC_OFS + 1] = Some (Z.shiftr c 8) /\
    forall k, k <> CRC_OFS -> k <> CRC_OFS + 1 -> m'.[k] = m.[k].
Proof.
  intros Hm. unfold set_crc, CRC_OFS. rewrite store_in_range by lia. simpl.
  rewrite store_in_range by (rewrite length_insert; lia).
  eexists; split; [done|]. rewrite !length_insert. split_and!; [done| | |].
  - rewrite load_insert_ne, load_insert_eq by (rewrite ?length_insert; lia). done.
  - rewrite load_insert_eq by (rewrite length_insert; lia). done.
  - intros k H1 H2. rewrite !load_insert_ne by lia. done.
Qed.

End Msg.
