(* ===== verification/Dispatcher.v ===== *)
(** * The dispatcher: the main loop of [main]

    Lines 74-146 of [src/ohc.c] as a small-step machine.  The state is the
    whole set of globals ([Window.window] and [Store.store] shared with the
    receive interrupt, [leds_toggle], [msg]), the global interrupt-enable
    flag (the I bit that [cli()] clears and [sei()] sets), the trace of
    what the program did to its collaborators ([message_send] and the LED
    port writes, in order), and a program counter [pc] that names the C
    statement to execute next, with the value of the loop variable [i]
    where a loop is running.

    [main_step] executes one statement.  A statement that reads the shared
    state ([has_new_packet], [packet_type], [new_packet]) is a step of its
    own, so that the interleaving with the interrupt in [System.v] is as
    fine as the C code's; consecutive statements that touch only the main
    loop's own state are one step.  The [_delay_ms] calls are not modelled
    (they change no state).  A read or write out of range is undefined
    behaviour in C: [main_step] returns [None] there. *)

From stdpp Require Import base list options numbers.
From Stdlib Require Import ZArith Lia.
From S2P Require Import Prelude Detector Mailbox Message.

Open Scope Z_scope.
Open Scope ohc_scope.

Module Main.
Import Window Store Msg.

(** The packet types (the anonymous [enum] of lines 10-17). *)
Inductive packet_kind :=
| PACKET_STOP
| PACKET_LEDTOGGLE
| PACKET_FORWARDMSG
| PACKET_FORWARDRAWMSG
| PACKET_BOOTPAGE
| PACKET_GPSFRAME.

(** The [case] labels of [switch(packet_type)]: any other value matches
    no case. *)
Definition packet_kind_of (t : Z) : option packet_kind :=
  match t with
  | 0 => Some PACKET_STOP
  | 1 => Some PACKET_LEDTOGGLE
  | 2 => Some PACKET_FORWARDMSG
  | 3 => Some PACKET_FORWARDRAWMSG
  | 4 => Some PACKET_BOOTPAGE
  | 5 => Some PACKET_GPSFRAME
  | _ => None
  end.

(** [SPM_PAGESIZE] of the ATmega328P (avr-libc's [<avr/io.h>]). *)
Definition SPM_PAGESIZE : Z := 128.

(** What the program does to its collaborators: [message_send(&msg)] with
    the bytes of [msg], and writes of the blue and green LED lines. *)
Inductive event :=
| Send (m : list Z)
| Blue (on : bool)
| Green (on : bool).

(** The next statement of the main loop. *)
Inductive pc :=
| Poll                 (** line 75: [if (has_new_packet)] in [while(1)] *)
| Clear                (** line 76: [has_new_packet = 0] *)
| Switch               (** line 77: [switch(packet_type)] *)
| Toggle               (** lines 81-85 *)
| FwdCopy (i : Z)      (** lines 88-89, the copy loop at [i] *)
| FwdCrc               (** line 90: [msg.crc = message_crc(&msg)] *)
| FwdWait              (** line 91: [while(!has_new_packet)] *)
| FwdSend              (** lines 92-96: send and pulse green *)
| RawCopy (i : Z)      (** lines 100-101, the copy loop at [i] *)
| RawWait              (** line 102 *)
| RawSend              (** lines 103-107 *)
| BootInit             (** lines 111-113 *)
| BootCli              (** line 114: [cli()] *)
| BootTest (i : Z)     (** line 115: [i < SPM_PAGESIZE && !has_new_packet] *)
| BootBody (i : Z)     (** lines 116-119 *)
| BootSei              (** line 121: [sei()] *)
| BootBlink            (** lines 122-125 *)
| GpsInit              (** lines 128-129 *)
| GpsCli               (** line 130: [cli()] *)
| GpsTest (i : Z)      (** line 131: [i < PACKET_SIZE - 7] *)
| GpsBody (i : Z)      (** lines 132-136 *)
| GpsSei               (** line 138: [sei()] *)
| GpsBlink.            (** lines 139-142 *)

(** The program's state. *)
Record state := mkState {
  win : window;
  mbox : store;
  leds_toggle : bool;
  msg : list Z;
  sreg_i : bool;
  trace : list event;
  pc_of : pc
}.

(** ** State updates *)

Definition goto (s : state) (p : pc) : state :=
  mkState (win s) (mbox s) (leds_toggle s) (msg s) (sreg_i s) (trace s) p.

Definition set_msg (s : state) (m : list Z) : state :=
  mkState (win s) (mbox s) (leds_toggle s) m (sreg_i s) (trace s) (pc_of s).

Definition set_sreg (s : state) (b : bool) : state :=
  mkState (win s) (mbox s) (leds_toggle s) (msg s) b (trace s) (pc_of s).

Definition set_leds (s : state) (b : bool) : state :=
  mkState (win s) (mbox s) b (msg s) (sreg_i s) (trace s) (pc_of s).

Definition emit (s : state) (es : list event) : state :=
  mkState (win s) (mbox s) (leds_toggle s) (msg s) (sreg_i s) (trace s ++ es) (pc_of s).

Definition clear_flag (s : state) : state :=
  mkState (win s) (mkStore (new_packet (mbox s)) (packet_type (mbox s)) false)
    (leds_toggle s) (msg s) (sreg_i s) (trace s) (pc_of s).

(** The state after [ISR(USART_RX_vect)] has run. *)
Definition set_shared (s : state) (w : window) (fs : store) : state :=
  mkState w fs (leds_toggle s) (msg s) (sreg_i s) (trace s) (pc_of s).

(** The statement after [switch(packet_type)]. *)
Definition switch_target (t : Z) : pc :=
  match packet_kind_of t with
  | Some PACKET_STOP | None => Poll
  | Some PACKET_LEDTOGGLE => Toggle
  | Some PACKET_FORWARDMSG => FwdCopy 0
  | Some PACKET_FORWARDRAWMSG => RawCopy 0
  | Some PACKET_BOOTPAGE => BootInit
  | Some PACKET_GPSFRAME => GpsInit
  end.

(** [message_send(&msg)] with the green pulse of the forwarding loops. *)
Definition send_pulse (m : list Z) : list event := [Send m; Green true; Green false].

(** The start-up state of the main loop: globals zero-initialised,
    interrupts enabled by [sei()] on line 59, nothing sent yet. *)
Definition state_init : state :=
  mkState window_init store_init false message_init true [] Poll.

Section Step.
Context `{Transport}.

(** One statement of the main loop. *)
Definition main_step (s : state) : option state :=
  let np := new_packet (mbox s) in
  match pc_of s with
  | Poll => Some (goto s (if has_new_packet (mbox s) then Clear else Poll))
  | Clear => Some (goto (clear_flag s) Switch)
  | Switch => Some (goto s (switch_target (packet_type (mbox s))))
  | Toggle =>
      let t := negb (leds_toggle s) in
      Some (goto (emit (set_leds s t) [Blue t]) Poll)
  | FwdCopy i =>
      if decide (i < MESSAGE_SIZE - CRC_SIZE) then
        v ← np.[i + 2]; m ← (msg s).[i := v];
        Some (goto (set_msg s m) (FwdCopy (u8 (i + 1))))
      else Some (goto s FwdCrc)
  | FwdCrc => m ← set_crc (msg s) (message_crc (msg s)); Some (goto (set_msg s m) FwdWait)
  | FwdWait => Some (goto s (if has_new_packet (mbox s) then Poll else FwdSend))
  | FwdSend => Some (goto (emit s (send_pulse (msg s))) FwdWait)
  | RawCopy i =>
      if decide (i < MESSAGE_SIZE) then
        v ← np.[i + 2]; m ← (msg s).[i := v];
        Some (goto (set_msg s m) (RawCopy (u8 (i + 1))))
      else Some (goto s RawWait)
  | RawWait => Some (goto s (if has_new_packet (mbox s) then Poll else RawSend))
  | RawSend => Some (goto (emit s (send_pulse (msg s))) RawWait)
  | BootInit =>
      m ← (msg s).[TYPE_OFS := BOOTPGM_PAGE];
      a ← np.[2];
      m ← m.[BOOT_PAGE_ADDRESS := a];
      m ← m.[BOOT_UNUSED := 0];
      Some (goto (set_msg s m) BootCli)
  | BootCli => Some (goto (set_sreg s false) (BootTest 0))
  | BootTest i =>
      Some (goto s (if bool_decide (i < SPM_PAGESIZE) && negb (has_new_packet (mbox s))
                    then BootBody i else BootSei))
  | BootBody i =>
      m ← (msg s).[BOOT_PAGE_OFFSET := i / 2];
      m ← copy_range m np BOOT_WORD1 (3 + i) 0 6;
      m ← set_crc m (message_crc m);
      Some (goto (emit (set_msg s m) [Send m]) (BootTest (u8 (i + 6))))
  | BootSei => Some (goto (set_sreg s true) BootBlink)
  | BootBlink => Some (goto (emit s [Green true; Green false]) Poll)
  | GpsInit =>
      m ← (msg s).[TYPE_OFS := GPS];
      m ← m.[GPS_UNUSED := 0];
      m ← m.[GPS_UNUSED + 1 := 0];
      Some (goto (set_msg s m) GpsCli)
  | GpsCli => Some (goto (set_sreg s false) (GpsTest 2))
  | GpsTest i => Some (goto s (if decide (i < PACKET_SIZE - 7) then GpsBody i else GpsSei))
  | GpsBody i =>
      m ← copy_range (msg s) np GPS_ID i 0 7;
      id ← m.[GPS_ID];
      if decide (id = 0) then Some (goto (set_msg s m) GpsSei)
      else
        m ← set_crc m (message_crc m);
        Some (goto (emit (set_msg s m) [Send m]) (GpsTest (u8 (i + 7))))
  | GpsSei => Some (goto (set_sreg s true) GpsBlink)
  | GpsBlink => Some (goto (emit s [Green true; Green false]) Poll)
  end.

(** [n] statements of the main loop with no interrupt in between. *)
Fixpoint run (n : nat) (s : state) : option state :=
  match n with
  | O => Some s
  | S n => s' ← main_step s; run n s'
  end.

(** ** What each handler sends *)

(** A message whose first ten bytes are [d], with its CRC filled in. *)
Definition seal (d : list Z) : list Z :=
  let c := message_crc (d ++ [0; 0]) in d ++ [Z.land c 255; Z.shiftr c 8].

(** [PACKET_FORWARDMSG]: bytes 2-11 of the frame, then their CRC. *)
Definition fwd_message (np : list Z) : list Z := seal (take 10 (drop 2 np)).

(** [PACKET_FORWARDRAWMSG]: bytes 2-13 of the frame, CRC field included. *)
Definition raw_message (np : list Z) : list Z := take 12 (drop 2 np).

(** [PACKET_BOOTPAGE], the message of loop offset [i]: the page address
    (frame byte 2), the word offset [i / 2], six data bytes from frame
    offset [3 + i], [unused = 0] and the type [BOOTPGM_PAGE]. *)
Definition boot_message (np : list Z) (i : Z) : list Z :=
  seal ([default 0 (np !! 2%nat); i / 2] ++ take 6 (drop (Z.to_nat (3 + i)) np) ++ [0; BOOTPGM_PAGE]).

(** [PACKET_GPSFRAME], the fragment at frame offset [i]: its seven bytes,
    [unused = 0] and the type [GPS]. *)
Definition gps_message (np : list Z) (i : Z) : list Z :=
  seal (take 7 (drop (Z.to_nat i) np) ++ [0; 0; GPS]).

(** The fragments the GPS loop sends from offset [i] with [n] offsets
    left: it stops before the first fragment whose [id] is 0. *)
Fixpoint gps_messages (np : list Z) (i : Z) (n : nat) : list (list Z) :=
  match n with
  | O => []
  | S n =>
      if decide (default 0 (np !! Z.to_nat i) = 0) then []
      else gps_message np i :: gps_messages np (i + 7) n
  end.

(** What the boot-page loop relies on [msg] to hold after lines 111-113:
    the page address, [unused = 0] and the type [BOOTPGM_PAGE]. *)
Definition boot_ready (np m : list Z) : Prop :=
  length m = 12%nat /\ m.[BOOT_PAGE_ADDRESS] = np.[2] /\ m.[BOOT_UNUSED] = Some 0 /\
  m.[TYPE_OFS] = Some BOOTPGM_PAGE.

(** What the GPS loop relies on [msg] to hold after lines 128-129:
    [unused = 0] and the type [GPS]. *)
Definition gps_ready (m : list Z) : Prop :=
  length m = 12%nat /\ m.[GPS_UNUSED] = Some 0 /\ m.[GPS_UNUSED + 1] = Some 0 /\
  m.[TYPE_OFS] = Some GPS.

End Step.

(** ** Example states *)

(** A 132-byte frame of type [t] whose bytes after the type are
    1, 2, ..., 130 (so no GPS fragment has [id = 0]). *)
Definition frame_of (t : Z) : list Z := 85 :: t :: map Z.of_nat (seq 1 130).

(** The main loop at [pc] [p], with the frame of type [t] in the mailbox
    and [has_new_packet = f]. *)
Definition dispatch_ex (t : Z) (f : bool) (p : pc) : state :=
  mkState window_init (mkStore (frame_of t) t f) false message_init true [] p.

(** ** Lemmas on the machine *)

Section Props.
Context `{Transport}.

Lemma run_add n1 n2 s : run (n1 + n2) s = s' ← run n1 s; run n2 s'.
Proof.
  revert s. induction n1 as [|n1 IH]; intros s; simpl; [done|].
  destruct (main_step s); simpl; [apply IH|done].
Qed.

Lemma run_S n s s' : main_step s = Some s' -> run (S n) s = run n s'.
Proof. intros E. simpl. by rewrite E. Qed.

Lemma run_trans n1 n2 s s1 : run n1 s = Some s1 -> run (n1 + n2) s = run n2 s1.
Proof. intros E. rewrite run_add, E. done. Qed.

Lemma emit_nil s : emit s [] = s.
Proof. destruct s. unfold emit. simpl. by rewrite app_nil_r. Qed.

Lemma emit_emit s es1 es2 : emit (emit s es1) es2 = emit s (es1 ++ es2).
Proof. destruct s. unfold emit. simpl. by rewrite app_assoc. Qed.

Lemma goto_pc s : goto s (pc_of s) = s.
Proof. by destruct s. Qed.

Lemma set_msg_same s : set_msg s (msg s) = s.
Proof. by destruct s. Qed.

Lemma goto_set_msg s m p : goto (set_msg s m) p = set_msg (goto s p) m.
Proof. by destruct s. Qed.

#[local] Hint Rewrite emit_nil emit_emit goto_pc set_msg_same : ohc_rw.

(** The copy loops of lines 88-89 and 100-101, one element per step, run
    to their end in [hi - i] steps plus the exit test, and compute
    [copy_range]. *)
Lemma copy_loop_run (L : Z -> pc) (X : pc) (hi : Z) :
  (forall s i, pc_of s = L i -> main_step s =
     if decide (i < hi) then
       v ← (new_packet (mbox s)).[i + 2]; m ← (msg s).[i := v];
       Some (goto (set_msg s m) (L (u8 (i + 1))))
     else Some (goto s X)) ->
  hi < 256 ->
  forall k s i m', pc_of s = L i -> 0 <= i <= hi -> Z.to_nat (hi - i) = k ->
  copy_range (msg s) (new_packet (mbox s)) 0 2 i hi = Some m' ->
  run (S k) s = Some (goto (set_msg s m') X).
Proof.
  intros Hstep Hhi k. induction k as [|k IH]; intros s i m' Hpc Hi Hk Hc.
  - assert (i = hi) by lia. subst i. rewrite copy_range_done in Hc. injection Hc as <-.
    erewrite run_S by (rewrite (Hstep s hi Hpc), decide_False by lia; done).
    simpl. by autorewrite with ohc_rw.
  - rewrite copy_range_step in Hc by lia.
    destruct ((new_packet (mbox s)).[i + 2]) as [v|] eqn:Ev; simpl in Hc; [|discriminate].
    rewrite Z.add_0_r in Hc.
    destruct ((msg s).[i := v]) as [m|] eqn:Em; simpl in Hc; [|discriminate].
    erewrite run_S by (rewrite (Hstep s i Hpc), decide_True, Ev by lia; simpl; rewrite Em; done).
    rewrite (u8_small (i + 1)) by lia.
    rewrite (IH _ (i + 1) m'); [by destruct s | by destruct s | lia | lia | by destruct s].
Qed.

(** The resend loops of lines 91-97 and 102-108: with no new packet, every
    two steps send [msg] once more and pulse the green line. *)
Lemma wait_loop_run (W Snd : pc) :
  (forall s, pc_of s = W -> main_step s = Some (goto s (if has_new_packet (mbox s) then Poll else Snd))) ->
  (forall s, pc_of s = Snd -> main_step s = Some (goto (emit s (send_pulse (msg s))) W)) ->
  forall n s, pc_of s = W -> has_new_packet (mbox s) = false ->
  run (2 * n) s = Some (emit s (concat (replicate n (send_pulse (msg s))))).
Proof.
  intros HW HS n. induction n as [|n IH]; intros s Hpc Hf.
  - simpl. by autorewrite with ohc_rw.
  - replace (2 * S n)%nat with (S (S (2 * n))) by lia.
    erewrite run_S by (rewrite HW by done; rewrite Hf; done).
    erewrite run_S by (rewrite HS by done; done).
    replace (goto (emit (goto s Snd) (send_pulse (msg (goto s Snd)))) W)
      with (emit s (send_pulse (msg s))) by (destruct s; simpl in *; by subst).
    rewrite IH by (by destruct s). rewrite emit_emit. done.
Qed.

(** Filling in the CRC of a 12-byte message whose first ten bytes are [d]
    gives [seal d]: [message_crc] reads only those ten bytes. *)
Lemma set_crc_seal m d :
  length m = 12%nat -> take 10 m = d -> set_crc m (message_crc m) = Some (seal d).
Proof.
  intros Hm Hd. assert (length d = 10%nat) as Hld by (rewrite <- Hd, length_take; lia).
  destruct (set_crc_spec m (message_crc m) Hm) as (m' & -> & Hl & H10 & H11 & Hk).
  rewrite (message_crc_prefix m (d ++ [0; 0])) in *
    by (rewrite Hd, take_app_length' by done; done).
  f_equal. apply load_ext. intros k. unfold seal, CRC_OFS in *. rewrite load_app, Hld.
  destruct (decide (k < 0)); [rewrite decide_True, !load_neg by lia; done|].
  case_decide.
  - rewrite Hk by lia. rewrite <- Hd, load_take by lia. by rewrite decide_True by lia.
  - destruct (decide (k = 10)) as [->|]; [done|]. destruct (decide (k = 11)) as [->|]; [done|].
    rewrite !load_out_of_range by (simpl; lia). done.
Qed.

(** The first [n] bytes the copy loops of lines 88-89 and 100-101 write
    are bytes 2 to [n + 1] of the frame. *)
Lemma copy_msg_prefix (m np : list Z) (n : nat) :
  length m = 12%nat -> length np = 132%nat -> (n <= 12)%nat ->
  exists m1, copy_range m np 0 2 0 (Z.of_nat n) = Some m1 /\ length m1 = 12%nat /\
             take n m1 = take n (drop 2 np).
Proof.
  intros Hm Hnp Hn. destruct (copy_range_spec m np 0 2 0 (Z.of_nat n)) as (m1 & Hc & Hl & In & _);
    try lia.
  exists m1. split_and!; [done|lia|]. apply load_ext. intros k.
  rewrite load_take, load_take_drop by lia. case_decide; [|done].
  rewrite In by lia. f_equal. lia.
Qed.

(** C7: [PACKET_FORWARDMSG] (lines 87-98).  Dispatched with no newer
    packet pending, the handler copies frame bytes 2-11 into [msg], fills
    in their CRC, and then transmits that message and pulses the green
    line once every two steps, forever: after [13 + 2 n] steps exactly [n]
    transmissions have happened, [msg] is the forwarded message, and
    nothing else has changed. *)
Theorem forward_relay s n :
  pc_of s = Switch -> packet_type (mbox s) = 2 -> has_new_packet (mbox s) = false ->
  length (new_packet (mbox s)) = 132%nat -> length (msg s) = 12%nat ->
  run (13 + 2 * n) s =
    Some (emit (goto (set_msg s (fwd_message (new_packet (mbox s)))) FwdWait)
               (concat (replicate n (send_pulse (fwd_message (new_packet (mbox s))))))).
Proof.
  intros Hpc Ht Hf Hnp Hm.
  destruct (copy_msg_prefix (msg s) (new_packet (mbox s)) 10 Hm Hnp) as (m1 & Hc & Hl1 & Hp1);
    [lia|].
  replace (13 + 2 * n)%nat with (1 + (11 + S (2 * n)))%nat by lia.
  rewrite (run_trans 1 _ s (goto s (FwdCopy 0)))
    by (simpl; unfold main_step; rewrite Hpc, Ht; done).
  rewrite (run_trans 11 _ _ (goto (set_msg (goto s (FwdCopy 0)) m1) FwdCrc)).
  2:{ apply (copy_loop_run FwdCopy FwdCrc 10) with (i := 0); [ | lia | done | lia | done | done].
      intros s' i Hp. unfold main_step. by rewrite Hp. }
  erewrite run_S.
  2:{ unfold main_step. simpl. rewrite (set_crc_seal m1 _ Hl1 Hp1). done. }
  rewrite (wait_loop_run FwdWait FwdSend); [ | intros s' Hp; unfold main_step; by rewrite Hp.. | done | done].
  by destruct s.
Qed.

Lemma length_seal d : length d = 10%nat -> length (seal d) = 12%nat.
Proof. intros. unfold seal. rewrite length_app. simpl. lia. Qed.

Lemma load_seal d k : length d = 10%nat -> 0 <= k < 10 -> (seal d).[k] = d.[k].
Proof. intros. unfold seal. rewrite load_app, decide_True by lia. done. Qed.

(** The ten data bytes of a boot-page message, byte by byte. *)
Lemma load_boot_data x y np (n : nat) k :
  (n + 6 <= length np)%nat ->
  ([x; y] ++ take 6 (drop n np) ++ [0; BOOTPGM_PAGE]).[k] =
    if decide (k = 0) then Some x else if decide (k = 1) then Some y
    else if decide (2 <= k < 8) then np.[k - 2 + Z.of_nat n]
    else if decide (k = 8) then Some 0 else if decide (k = 9) then Some BOOTPGM_PAGE
    else None.
Proof.
  intros Hn. rewrite !load_app. simpl length. rewrite length_take, length_drop, Nat.min_l by lia.
  destruct (decide (k < 0)).
  { rewrite decide_True, load_neg by lia. by rewrite !decide_False by lia. }
  repeat case_decide; try lia; try (subst k; reflexivity).
  - rewrite load_take_drop by lia. rewrite decide_True by lia. f_equal; lia.
  - rewrite load_out_of_range by (simpl; lia). done.
Qed.

Lemma boot_data_length x y np (n : nat) :
  (n + 6 <= length np)%nat -> length ([x; y] ++ take 6 (drop n np) ++ [0; BOOTPGM_PAGE]) = 10%nat.
Proof. intros. rewrite !length_app, length_take, length_drop, Nat.min_l by lia. simpl. lia. Qed.

Lemma load_frame_2 (np : list Z) : length np = 132%nat -> np.[2] = Some (default 0 (np !! 2%nat)).
Proof.
  intros. destruct (lookup_lt_is_Some_2 np 2) as [a Ha]; [lia|].
  rewrite load_nonneg by lia. simpl. by rewrite Ha.
Qed.

Lemma boot_message_ready np i :
  length np = 132%nat -> 0 <= i <= 123 -> boot_ready np (boot_message np i).
Proof.
  intros Hnp Hi. unfold boot_message, boot_ready, BOOT_PAGE_ADDRESS, BOOT_UNUSED, TYPE_OFS.
  rewrite length_seal, !load_seal, !load_boot_data, load_frame_2 by (done || lia || apply boot_data_length; lia).
  done.
Qed.

(** One iteration of the boot-page loop (lines 115-119) while the index
    stays inside the frame: the test passes, and the body sends
    [boot_message np i] and advances [i] by 6. *)
Lemma boot_iteration s i :
  pc_of s = BootTest i -> 0 <= i <= 123 -> has_new_packet (mbox s) = false ->
  length (new_packet (mbox s)) = 132%nat -> boot_ready (new_packet (mbox s)) (msg s) ->
  run 2 s = Some (emit (goto (set_msg s (boot_message (new_packet (mbox s)) i)) (BootTest (i + 6)))
                       [Send (boot_message (new_packet (mbox s)) i)]).
Proof.
  intros Hpc Hi Hf Hnp (Hm & H0 & H8 & H9).
  set (np := new_packet (mbox s)) in *.
  erewrite run_S by (unfold main_step; rewrite Hpc, Hf, bool_decide_true by (unfold SPM_PAGESIZE; lia); done).
  simpl. unfold main_step. cbn [pc_of goto msg mbox]. fold np.
  unfold BOOT_PAGE_OFFSET. rewrite store_in_range by lia.
  destruct (copy_range_spec (<[Z.to_nat 1 := i / 2]> (msg s)) np BOOT_WORD1 (3 + i) 0 6)
    as (m2 & Hc & Hl2 & In2 & Out2); unfold BOOT_WORD1 in *; autorewrite with ohc_rw; try lia.
  cbn -[copy_range set_crc message_crc boot_message Z.to_nat].
  rewrite Hc. cbn -[copy_range set_crc message_crc boot_message].
  unfold boot_message.
  rewrite (set_crc_seal m2 ([default 0 (np !! 2%nat); i / 2] ++ take 6 (drop (Z.to_nat (3 + i)) np)
                              ++ [0; BOOTPGM_PAGE])).
  - simpl. rewrite u8_small by lia. by destruct s.
  - by rewrite Hl2, length_insert.
  - apply load_ext. intros k. rewrite load_take by (rewrite Hl2, length_insert; lia).
    rewrite load_boot_data by lia. unfold BOOT_PAGE_ADDRESS, BOOT_UNUSED, TYPE_OFS in *.
    destruct (decide (2 <= k < 8)).
    + rewrite In2 by lia. rewrite decide_True by lia. repeat case_decide; try lia. f_equal. lia.
    + destruct (decide (0 <= k < 10)); [rewrite Out2 by lia; rewrite load_insert by lia|].
      * repeat case_decide; subst; try lia; try done.
        rewrite H0. by apply load_frame_2.
      * rewrite !decide_False by lia. done.
Qed.

(** Lines 111-113 prepare [msg] for the boot-page loop. *)
Lemma boot_init_step s :
  pc_of s = BootInit -> length (new_packet (mbox s)) = 132%nat -> length (msg s) = 12%nat ->
  exists m, main_step s = Some (goto (set_msg s m) BootCli) /\ boot_ready (new_packet (mbox s)) m.
Proof.
  intros Hpc Hnp Hm. unfold main_step. rewrite Hpc.
  unfold TYPE_OFS, BOOT_PAGE_ADDRESS, BOOT_UNUSED. rewrite store_in_range by lia.
  cbn -[Z.to_nat]. rewrite load_frame_2 by done. cbn -[Z.to_nat].
  rewrite store_in_range by (rewrite length_insert; lia). cbn -[Z.to_nat].
  rewrite store_in_range by (rewrite !length_insert; lia). cbn -[Z.to_nat].
  eexists; split; [done|]. unfold boot_ready, BOOT_PAGE_ADDRESS, BOOT_UNUSED, TYPE_OFS.
  rewrite !length_insert, load_frame_2 by done.
  split_and!; [done | | | ]; rewrite !load_insert by (rewrite ?length_insert; lia); done.
Qed.

(** The first [j] iterations of the boot-page loop, while no packet is
    pending: message [k] is [boot_message np (6 k)]. *)
Lemma boot_loop s (j : nat) :
  pc_of s = BootTest 0 -> has_new_packet (mbox s) = false ->
  length (new_packet (mbox s)) = 132%nat -> boot_ready (new_packet (mbox s)) (msg s) ->
  (j <= 21)%nat ->
  exists m, run (2 * j) s =
    Some (emit (goto (set_msg s m) (BootTest (6 * Z.of_nat j)))
               (map (fun k => Send (boot_message (new_packet (mbox s)) (6 * Z.of_nat k))) (seq 0 j)))
    /\ boot_ready (new_packet (mbox s)) m.
Proof.
  intros Hpc Hf Hnp Hr. induction j as [|j IH]; intros Hj.
  - exists (msg s). rewrite set_msg_same. replace (6 * Z.of_nat 0) with 0 by lia.
    rewrite <- Hpc. cbn [run seq map]. by autorewrite with ohc_rw.
  - destruct IH as (m & E & Hm); [lia|]. replace (2 * S j)%nat with (2 * j + 2)%nat by lia.
    rewrite (run_trans _ _ _ _ E).
    rewrite (boot_iteration _ (6 * Z.of_nat j)) by (destruct s; cbn in *; first [done | lia]).
    exists (boot_message (new_packet (mbox s)) (6 * Z.of_nat j)).
    split; [|apply boot_message_ready; [done | lia]].
    rewrite seq_S, map_app. destruct s. unfold emit, goto, set_msg. simpl.
    rewrite app_assoc. do 3 f_equal; lia.
Qed.

(** C6: [PACKET_BOOTPAGE] (lines 110-126) reads past the end of
    [new_packet].  Dispatched with no newer packet pending, the handler
    disables interrupts, sends the 21 messages of offsets 0, 6, ..., 120
    (page address, word offset, six frame bytes, CRC), and then, at
    [i = 126 < SPM_PAGESIZE], its [memcpy] reads [new_packet[129..134]]:
    the last three bytes lie outside the 132-byte array, undefined
    behaviour, with interrupts still disabled. *)
Theorem boot_page_overread s :
  pc_of s = Switch -> packet_type (mbox s) = 4 -> has_new_packet (mbox s) = false ->
  length (new_packet (mbox s)) = 132%nat -> length (msg s) = 12%nat ->
  exists s', run 46 s = Some s' /\ pc_of s' = BootBody 126 /\ sreg_i s' = false /\
    trace s' = trace s ++
      map (fun k => Send (boot_message (new_packet (mbox s)) (6 * Z.of_nat k))) (seq 0 21) /\
    main_step s' = None.
Proof.
  intros Hpc Ht Hf Hnp Hm.
  replace 46%nat with (1 + (1 + (1 + (2 * 21 + 1))))%nat by lia.
  rewrite (run_trans 1 _ s (goto s BootInit)) by (simpl; unfold main_step; rewrite Hpc, Ht; done).
  destruct (boot_init_step (goto s BootInit)) as (m0 & E0 & Hr0); [done | by destruct s | by destruct s |].
  rewrite (run_trans 1 _ _ _ (eq_trans (run_S 0 _ _ E0) eq_refl)).
  rewrite (run_trans 1 _ _ (goto (set_sreg (goto (set_msg (goto s BootInit) m0) BootCli) false) (BootTest 0)))
    by (simpl; unfold main_step; done).
  destruct (boot_loop (goto (set_sreg (goto (set_msg (goto s BootInit) m0) BootCli) false) (BootTest 0)) 21)
    as (m & E & Hr); [done | by destruct s | by destruct s | by destruct s | lia |].
  rewrite (run_trans _ _ _ _ E). simpl.
  unfold main_step at 1. cbn [pc_of goto emit set_msg mbox].
  rewrite Hf. simpl.
  eexists; split_and!; [reflexivity | done | by destruct s | by destruct s |].
  unfold main_step. cbn [pc_of goto emit set_msg mbox msg]. destruct Hr as (Hl & _).
  unfold BOOT_PAGE_OFFSET. rewrite store_in_range by (rewrite Hl; lia).
  cbn -[copy_range Z.to_nat]. unfold BOOT_WORD1. rewrite copy_range_oob; [done | lia | | | lia |];
    destruct s; simpl in *; autorewrite with ohc_rw; lia.
Qed.

(** The ten data bytes of a GPS message, byte by byte. *)
Lemma load_gps_data np (n : nat) k :
  (n + 7 <= length np)%nat ->
  (take 7 (drop n np) ++ [0; 0; GPS]).[k] =
    if decide (0 <= k < 7) then np.[k + Z.of_nat n]
    else if decide (k = 7) then Some 0 else if decide (k = 8) then Some 0
    else if decide (k = 9) then Some GPS else None.
Proof.
  intros Hn. rewrite load_app, length_take, length_drop, Nat.min_l by lia.
  destruct (decide (k < 0)).
  { rewrite decide_True, load_take_drop by lia. by rewrite !decide_False by lia. }
  repeat case_decide; try lia; try (subst k; reflexivity).
  - rewrite load_take_drop by lia. by rewrite decide_True by lia.
  - rewrite load_out_of_range by (simpl; lia). done.
Qed.

Lemma gps_data_length np (n : nat) :
  (n + 7 <= length np)%nat -> length (take 7 (drop n np) ++ [0; 0; GPS]) = 10%nat.
Proof. intros. rewrite length_app, length_take, length_drop, Nat.min_l by lia. done. Qed.

Lemma gps_message_ready np i :
  length np = 132%nat -> 0 <= i <= 125 -> gps_ready (gps_message np i).
Proof.
  intros Hnp Hi. unfold gps_message, gps_ready, GPS_UNUSED, TYPE_OFS.
  rewrite length_seal, !load_seal, !load_gps_data by (done || lia || apply gps_data_length; lia).
  done.
Qed.

(** Lines 128-129 prepare [msg] for the GPS loop. *)
Lemma gps_init_step s :
  pc_of s = GpsInit -> length (msg s) = 12%nat ->
  exists m, main_step s = Some (goto (set_msg s m) GpsCli) /\ gps_ready m.
Proof.
  intros Hpc Hm. unfold main_step. rewrite Hpc. unfold TYPE_OFS, GPS_UNUSED.
  rewrite store_in_range by lia. cbn -[Z.to_nat].
  rewrite store_in_range by (rewrite length_insert; lia). cbn -[Z.to_nat].
  rewrite store_in_range by (rewrite !length_insert; lia). cbn -[Z.to_nat].
  eexists; split; [done|]. unfold gps_ready, GPS_UNUSED, TYPE_OFS.
  rewrite !length_insert. split_and!; [done | | | ];
    rewrite !load_insert by (rewrite ?length_insert; lia); done.
Qed.

(** The GPS loop of lines 131-137 from offset [i] with [n] offsets left
    runs in at most [2 n + 1] steps to [sei()], sending exactly
    [gps_messages np i n]. *)
Lemma gps_loop n : forall s i,
  pc_of s = GpsTest i -> 2 <= i -> i + 7 * Z.of_nat n = 128 ->
  length (new_packet (mbox s)) = 132%nat -> gps_ready (msg s) ->
  exists k m, (k <= 2 * n + 1)%nat /\
    run k s = Some (emit (goto (set_msg s m) GpsSei)
                         (map Send (gps_messages (new_packet (mbox s)) i n))).
Proof.
  induction n as [|n IH]; intros s i Hpc Hi Hn Hnp (Hm & H7 & H8 & H9).
  - exists 1%nat, (msg s). split; [lia|].
    erewrite run_S by (unfold main_step; rewrite Hpc, decide_False by (unfold PACKET_SIZE; lia); done).
    simpl. autorewrite with ohc_rw. by destruct s.
  - set (np := new_packet (mbox s)) in *.
    destruct (copy_range_spec (msg s) np GPS_ID i 0 7) as (m1 & Hc & Hl1 & In1 & Out1);
      unfold GPS_ID in *; try lia.
    rewrite Hm in Hl1.
    assert (Hd : take 10 m1 = take 7 (drop (Z.to_nat i) np) ++ [0; 0; GPS]).
    { apply load_ext. intros k. rewrite load_take, load_gps_data by lia.
      unfold GPS_UNUSED, TYPE_OFS in *.
      destruct (decide (0 <= k < 7)); [rewrite !decide_True, In1 by lia; f_equal; lia|].
      destruct (decide (0 <= k < 10)); [rewrite Out1 by lia|];
        repeat case_decide; subst; try lia; done. }
    assert (Hid : m1.[0] = Some (default 0 (np !! Z.to_nat i))).
    { rewrite In1 by lia. rewrite load_nonneg by lia. simpl.
      destruct (lookup_lt_is_Some_2 np (Z.to_nat i)) as [a Ha]; [lia|]. by rewrite Ha. }
    destruct (decide (default 0 (np !! Z.to_nat i) = 0)) as [Hz|Hz].
    + exists 2%nat, m1. split; [lia|].
      erewrite run_S by (unfold main_step; rewrite Hpc, decide_True by (unfold PACKET_SIZE; lia); done).
      erewrite run_S.
      2:{ unfold main_step. cbn [pc_of goto msg mbox]. fold np. unfold GPS_ID. rewrite Hc. simpl.
          rewrite Hid. simpl. rewrite decide_True by done. done. }
      simpl. rewrite decide_True by done. simpl. autorewrite with ohc_rw. by destruct s.
    + destruct (IH (emit (goto (set_msg s (gps_message np i)) (GpsTest (i + 7)))
                     [Send (gps_message np i)]) (i + 7)) as (k & m & Hk & E);
        [by destruct s | lia | lia | by destruct s | apply gps_message_ready; lia |].
      exists (S (S k)), m. split; [lia|].
      erewrite run_S by (unfold main_step; rewrite Hpc, decide_True by (unfold PACKET_SIZE; lia); done).
      erewrite run_S.
      2:{ unfold main_step. cbn [pc_of goto msg mbox]. fold np. unfold GPS_ID. rewrite Hc. simpl.
          rewrite Hid. simpl. rewrite decide_False by done. rewrite (set_crc_seal m1 _ Hl1 Hd).
          simpl. rewrite u8_small by lia. reflexivity. }
      change (seal (take 7 (drop (Z.to_nat i) np) ++ [0; 0; GPS])) with (gps_message np i).
      replace (goto (emit (set_msg (goto s (GpsBody i)) (gps_message np i))
                          [Send (gps_message np i)]) (GpsTest (i + 7)))
        with (emit (goto (set_msg s (gps_message np i)) (GpsTest (i + 7)))
                   [Send (gps_message np i)]) by (by destruct s).
      rewrite E. cbn [gps_messages]. rewrite decide_False by done. f_equal.
      destruct s; unfold emit, goto, set_msg; cbn. by rewrite <- app_assoc.
Qed.

(** C11: [PACKET_GPSFRAME] (lines 127-143) terminates.  Dispatched in any
    state, whether or not a newer packet is pending, the handler runs to
    completion and is back at the top of the main loop within 42 steps,
    with interrupts enabled again: it sends the 7-byte fragments at frame
    offsets 2, 9, ..., 121 in order, stopping before the first whose [id]
    byte is 0, and pulses the green line once. *)
Theorem gps_relay s :
  pc_of s = Switch -> packet_type (mbox s) = 5 ->
  length (new_packet (mbox s)) = 132%nat -> length (msg s) = 12%nat ->
  exists k s', (k <= 42)%nat /\ run k s = Some s' /\ pc_of s' = Poll /\ sreg_i s' = true /\
    mbox s' = mbox s /\
    trace s' = trace s ++ map Send (gps_messages (new_packet (mbox s)) 2 18) ++
                 [Green true; Green false].
Proof.
  intros Hpc Ht Hnp Hm.
  destruct (gps_init_step (goto s GpsInit)) as (m0 & E0 & Hr0); [done | by destruct s |].
  set (s2 := goto (set_sreg (goto (set_msg (goto s GpsInit) m0) GpsCli) false) (GpsTest 2)).
  assert (E3 : run 3 s = Some s2).
  { erewrite run_S by (unfold main_step; rewrite Hpc, Ht; done).
    erewrite run_S by exact E0. erewrite run_S by (unfold main_step; done). done. }
  destruct (gps_loop 18 s2 2) as (k & m & Hk & E); [done | lia | lia | by destruct s | by destruct s |].
  exists (3 + (k + 2))%nat. eexists. split; [lia|].
  rewrite (run_trans 3 _ _ _ E3), (run_trans k 2 _ _ E). split; [reflexivity|].
  split_and!; [done | done | by destruct s |].
  destruct s. cbn. by rewrite app_assoc.
Qed.

(** C13: [PACKET_LEDTOGGLE] (lines 80-86).  Taking a pending toggle
    packet clears [has_new_packet], flips [leds_toggle], drives the blue
    line to its new value, and returns to the top of the loop in four
    steps; nothing else changes and nothing is sent. *)
Theorem toggle_dispatch s :
  pc_of s = Poll -> has_new_packet (mbox s) = true -> packet_type (mbox s) = 1 ->
  run 4 s = Some (emit (set_leds (clear_flag s) (negb (leds_toggle s)))
                       [Blue (negb (leds_toggle s))]).
Proof.
  destruct s as [w [np t f] l m i tr p]. cbn. intros -> -> ->. reflexivity.
Qed.

(** [switch(packet_type)] stays at the top of the loop exactly for
    [PACKET_STOP] (0) and for the values no [case] names. *)
Lemma switch_target_Poll t : switch_target t = Poll <-> t = 0 \/ ~ (0 <= t <= 5).
Proof.
  destruct (decide (0 <= t <= 5)) as [Ht|Ht].
  - assert (t = 0 \/ t = 1 \/ t = 2 \/ t = 3 \/ t = 4 \/ t = 5) as Hc by lia.
    destruct_or!; subst; cbn; split; intros Hs; first [done | lia | by destruct Hs].
  - split; [intros _; by right|intros _].
    unfold switch_target, packet_kind_of. repeat case_match; subst; try done; lia.
Qed.

(** The three statements from the top of the loop with a packet pending:
    the test, the clearing of the flag, and the [switch]. *)
Lemma run_dispatch s :
  pc_of s = Poll -> has_new_packet (mbox s) = true ->
  run 3 s = Some (goto (clear_flag s) (switch_target (packet_type (mbox s)))).
Proof. destruct s as [w [np t f] l m i tr p]. cbn. intros -> ->. reflexivity. Qed.

(** C14: [PACKET_STOP] and packet types that match no [case] (lines
    77-79).  Taking a pending packet comes back to the top of the loop in
    three steps having only cleared [has_new_packet] (no message sent, no
    LED written, no other global changed) if and only if its type is
    [PACKET_STOP] (0) or a value outside 0-5; every other type starts its
    behaviour instead. *)
Theorem noop_dispatch s :
  pc_of s = Poll -> has_new_packet (mbox s) = true ->
  run 3 s = Some (clear_flag s) <->
    packet_type (mbox s) = 0 \/ ~ (0 <= packet_type (mbox s) <= 5).
Proof.
  intros Hp Hf. rewrite run_dispatch by done. rewrite <- switch_target_Poll.
  destruct s as [w [np t f] l m i tr p]. cbn in *. subst p.
  split; [intros [= ?]; done | intros ->; done].
Qed.

(** C12: [PACKET_FORWARDRAWMSG] (lines 99-109).  Dispatched with no newer
    packet pending, the handler copies frame bytes 2-13 verbatim into
    [msg], CRC field included (no CRC is computed), and then transmits it
    and pulses the green line once every two steps, forever. *)
Theorem raw_relay s n :
  pc_of s = Switch -> packet_type (mbox s) = 3 -> has_new_packet (mbox s) = false ->
  length (new_packet (mbox s)) = 132%nat -> length (msg s) = 12%nat ->
  run (14 + 2 * n) s =
    Some (emit (goto (set_msg s (raw_message (new_packet (mbox s)))) RawWait)
               (concat (replicate n (send_pulse (raw_message (new_packet (mbox s))))))).
Proof.
  intros Hpc Ht Hf Hnp Hm.
  destruct (copy_msg_prefix (msg s) (new_packet (mbox s)) 12 Hm Hnp) as (m1 & Hc & Hl1 & Hp1);
    [lia|].
  replace (14 + 2 * n)%nat with (1 + (13 + 2 * n))%nat by lia.
  rewrite (run_trans 1 _ s (goto s (RawCopy 0)))
    by (simpl; unfold main_step; rewrite Hpc, Ht; done).
  rewrite (run_trans 13 _ _ (goto (set_msg (goto s (RawCopy 0)) m1) RawWait)).
  2:{ apply (copy_loop_run RawCopy RawWait 12) with (i := 0); [ | lia | done | lia | done | done].
      intros s' i Hp. unfold main_step. by rewrite Hp. }
  rewrite (wait_loop_run RawWait RawSend); [ | intros s' Hp; unfold main_step; by rewrite Hp.. | done | done].
  replace (raw_message _) with m1
    by (unfold raw_message; rewrite <- Hp1, <- Hl1; symmetry; apply firstn_all).
  by destruct s.
Qed.

End Props.

(** ** Witnesses, with kilolib's CRC *)

(** C7 witness: a forwarding frame, two transmissions. *)
Lemma forward_relay_witness :
  pc_of (dispatch_ex 2 false Switch) = Switch /\ packet_type (mbox (dispatch_ex 2 false Switch)) = 2 /\
  has_new_packet (mbox (dispatch_ex 2 false Switch)) = false /\
  length (new_packet (mbox (dispatch_ex 2 false Switch))) = 132%nat /\
  length (msg (dispatch_ex 2 false Switch)) = 12%nat /\
  run (13 + 2 * 2) (dispatch_ex 2 false Switch) =
    Some (emit (goto (set_msg (dispatch_ex 2 false Switch) (fwd_message (frame_of 2))) FwdWait)
               (concat (replicate 2 (send_pulse (fwd_message (frame_of 2)))))).
Proof. split_and!; [reflexivity.. | apply forward_relay; reflexivity]. Defined.

(** C12 witness: a raw forwarding frame, three transmissions. *)
Lemma raw_relay_witness :
  pc_of (dispatch_ex 3 false Switch) = Switch /\ packet_type (mbox (dispatch_ex 3 false Switch)) = 3 /\
  has_new_packet (mbox (dispatch_ex 3 false Switch)) = false /\
  length (new_packet (mbox (dispatch_ex 3 false Switch))) = 132%nat /\
  length (msg (dispatch_ex 3 false Switch)) = 12%nat /\
  run (14 + 2 * 3) (dispatch_ex 3 false Switch) =
    Some (emit (goto (set_msg (dispatch_ex 3 false Switch) (raw_message (frame_of 3))) RawWait)
               (concat (replicate 3 (send_pulse (raw_message (frame_of 3)))))).
Proof. split_and!; [reflexivity.. | apply raw_relay; reflexivity]. Defined.

(** C6 witness: a boot-page frame runs into the over-read. *)
Lemma boot_page_overread_witness :
  pc_of (dispatch_ex 4 false Switch) = Switch /\ packet_type (mbox (dispatch_ex 4 false Switch)) = 4 /\
  has_new_packet (mbox (dispatch_ex 4 false Switch)) = false /\
  length (new_packet (mbox (dispatch_ex 4 false Switch))) = 132%nat /\
  length (msg (dispatch_ex 4 false Switch)) = 12%nat /\
  exists s', run 46 (dispatch_ex 4 false Switch) = Some s' /\ pc_of s' = BootBody 126 /\
    sreg_i s' = false /\
    trace s' = trace (dispatch_ex 4 false Switch) ++
      map (fun k => Send (boot_message (new_packet (mbox (dispatch_ex 4 false Switch))) (6 * Z.of_nat k)))
        (seq 0 21) /\
    main_step s' = None.
Proof. split_and!; [reflexivity.. | apply (boot_page_overread (dispatch_ex 4 false Switch)); reflexivity]. Defined.

(** C11 witness: a GPS frame dispatched while a newer packet is already
    pending; the loop still sends all 18 fragments. *)
Lemma gps_relay_witness :
  pc_of (dispatch_ex 5 true Switch) = Switch /\ packet_type (mbox (dispatch_ex 5 true Switch)) = 5 /\
  length (new_packet (mbox (dispatch_ex 5 true Switch))) = 132%nat /\
  length (msg (dispatch_ex 5 true Switch)) = 12%nat /\
  exists k s', (k <= 42)%nat /\ run k (dispatch_ex 5 true Switch) = Some s' /\ pc_of s' = Poll /\
    sreg_i s' = true /\ mbox s' = mbox (dispatch_ex 5 true Switch) /\
    trace s' = trace (dispatch_ex 5 true Switch) ++
      map Send (gps_messages (new_packet (mbox (dispatch_ex 5 true Switch))) 2 18) ++
      [Green true; Green false].
Proof. split_and!; [reflexivity.. | apply (gps_relay (dispatch_ex 5 true Switch)); reflexivity]. Defined.

(** On that frame every fragment has a nonzero [id]: the loop sends all
    18 of them although [has_new_packet] was set before it started. *)
Lemma gps_messages_frame_of : length (gps_messages (frame_of 5) 2 18) = 18%nat.
Proof. vm_compute. reflexivity. Qed.

(** C13 witness: a pending toggle packet turns the blue line on. *)
Lemma toggle_dispatch_witness :
  pc_of (dispatch_ex 1 true Poll) = Poll /\ has_new_packet (mbox (dispatch_ex 1 true Poll)) = true /\
  packet_type (mbox (dispatch_ex 1 true Poll)) = 1 /\
  run 4 (dispatch_ex 1 true Poll) =
    Some (emit (set_leds (clear_flag (dispatch_ex 1 true Poll)) true) [Blue true]).
Proof. split_and!; [reflexivity.. | apply toggle_dispatch; reflexivity]. Defined.

(** C14 witness: a pending packet of type 9, which matches no [case],
    and one of type 1, which does. *)
Lemma noop_dispatch_witness :
  pc_of (dispatch_ex 9 true Poll) = Poll /\ has_new_packet (mbox (dispatch_ex 9 true Poll)) = true /\
  run 3 (dispatch_ex 9 true Poll) = Some (clear_flag (dispatch_ex 9 true Poll)) /\
  run 3 (dispatch_ex 1 true Poll) <> Some (clear_flag (dispatch_ex 1 true Poll)).
Proof.
  split_and!; [reflexivity | reflexivity | |].
  - apply (noop_dispatch (dispatch_ex 9 true Poll)); [reflexivity | reflexivity | right; cbn; lia].
  - rewrite (noop_dispatch (dispatch_ex 1 true Poll)) by reflexivity. cbn. lia.
Defined.

End Main.
