(* ===== verification/System.v ===== *)
(** * The whole program: the main loop interleaved with the receive interrupt

    The main loop of [src/ohc.c] ([Main.main_step]) and [ISR(USART_RX_vect)]
    ([Store.USART_RX_vect]) share the globals of lines 19-26.  On the AVR
    the interrupt can be taken between any two statements of the main loop
    while the I bit of [SREG] is set; the handler runs to completion (the
    hardware clears the I bit on entry), and [cli()] on lines 114 and 130
    holds pending bytes back until [sei()] on lines 121 and 138.  [step] is
    that interleaving as a relation: a statement of the main loop, or the
    handler on some byte when the I bit is set.  [reachable] is the closure
    from the state reached at line 74.  Bytes lost to a receiver overrun
    while interrupts are off are the environment's choice of which bytes
    to deliver, so they are covered.  [exec] runs one explicit schedule.

    The theorems: an invariant of every reachable state ([inv]); the only
    undefined behaviour of the whole program is the boot-page over-read;
    inside the boot-page loop the [!has_new_packet] test can only fail on
    its first iteration; a forwarded message always carries the CRC of its
    payload and is exactly the current frame's payload while no newer
    packet is pending, and likewise for the raw relay; every loop index
    stays in range;
    the blue line always shows [leds_toggle]; every
    section with interrupts disabled ends (or faults at the over-read);
    and a schedule in which one toggle packet is applied twice. *)

From stdpp Require Import base list options numbers relations.
From Stdlib Require Import ZArith Lia.
From S2P Require Import Prelude Detector Mailbox Message Dispatcher.

Open Scope Z_scope.
Open Scope ohc_scope.

Module System.
Import Window Store Msg Main.

(** What happens next: the main loop executes a statement, or the UART
    delivers byte [rx] to the interrupt handler. *)
Inductive sched :=
| Tick
| Rx (rx : Z).

(** The level of the blue LED line after a trace: the last [Blue] write;
    the power-on blink of lines 65-72 leaves it off. *)
Definition blue_line (tr : list event) : bool :=
  fold_left (fun b e => match e with Blue b' => b' | _ => b end) tr false.

(** Valid frames of type [PACKET_BOOTPAGE] (4) and [PACKET_STOP] (0). *)
Definition frame_boot : list Z := 85 :: 4 :: replicate 129 0 ++ [81].


Definition frame_stop : list Z := 85 :: 0 :: replicate 129 0 ++ [85].

(** A [PACKET_STOP] frame is received and taken by the main loop (lines
    75-76); before it reads [packet_type] (line 77) a [PACKET_LEDTOGGLE]
    frame arrives; then the main loop runs on. *)
Definition race_schedule : list sched :=
  map Rx frame_stop ++ [Tick; Tick] ++ map Rx frame_ex2 ++ replicate 6 Tick.

(** A frame received from start-up, then [n] statements of the main loop. *)
Definition after_frame (f : list Z) (n : nat) : list sched := map Rx f ++ replicate n Tick.

(** A valid frame of type [PACKET_GPSFRAME] (5) whose first fragment has
    [id = 1] and the second [id = 0]. *)
Definition frame_gps : list Z := 85 :: 5 :: 1 :: replicate 128 0 ++ [81].

(** A valid frame of type [PACKET_FORWARDRAWMSG] (3). *)
Definition frame_raw : list Z := 85 :: 3 :: replicate 129 0 ++ [86].

(** The range of the [uint8_t] loop index [i] (declared on line 64) at each
    statement of a loop: the copy loops of lines 88 and 100, the boot-page
    loop of line 115 (steps of 6) and the GPS loop of line 131 (steps of 7
    from 2). *)
Definition loop_bounds (p : pc) : Prop :=
  match p with
  | FwdCopy i => 0 <= i <= 10
  | RawCopy i => 0 <= i <= 12
  | BootTest i => 0 <= i <= 132 /\ i mod 6 = 0
  | BootBody i => 0 <= i <= 126 /\ i mod 6 = 0
  | GpsTest i => 2 <= i <= 128 /\ i mod 7 = 2
  | GpsBody i => 2 <= i <= 121 /\ i mod 7 = 2
  | _ => True
  end.

(** Steps left, at most, in a section with interrupts disabled: the
    boot-page loop (lines 115-121) advances [i] by 6 per two steps, the GPS
    loop (lines 131-138) by 7. *)
Definition cli_measure (p : pc) : nat :=
  match p with
  | BootTest i => 2 + 2 * Z.to_nat ((132 - i) / 6)
  | BootBody i => 1 + 2 * Z.to_nat ((132 - i) / 6)
  | GpsTest i => 2 + 2 * Z.to_nat ((132 - i) / 7)
  | GpsBody i => 1 + 2 * Z.to_nat ((132 - i) / 7)
  | _ => 1
  end.

Section Sys.
Context `{Transport}.

(** The receive interrupt taken on byte [rx]: only while the I bit is set. *)
Definition isr_step (s : state) (rx : Z) : option state :=
  if sreg_i s then
    '(w, fs) ← USART_RX_vect (win s) (mbox s) rx; Some (set_shared s w fs)
  else None.

Definition sys_step (s : state) (e : sched) : option state :=
  match e with
  | Tick => main_step s
  | Rx rx => isr_step s rx
  end.

(** One schedule, step by step. *)
Fixpoint exec (es : list sched) (s : state) : option state :=
  match es with
  | [] => Some s
  | e :: es => s' ← sys_step s e; exec es s'
  end.

(** The interleaving, for any bytes the environment sends. *)
Inductive step : state -> state -> Prop :=
| step_main s s' : main_step s = Some s' -> step s s'
| step_isr s rx s' : byte_ok rx -> isr_step s rx = Some s' -> step s s'.

Definition reachable (s : state) : Prop := rtc step state_init s.

(** The bytes a schedule delivers are bytes. *)
Definition sched_ok (e : sched) : Prop :=
  match e with
  | Tick => True
  | Rx rx => byte_ok rx
  end.

#[export] Instance sched_ok_dec e : Decision (sched_ok e).
Proof. destruct e; apply _. Defined.

(** What holds at each statement, given the I bit [ie], the store [fs]
    and [msg] = [m]. *)
Definition pc_ok (p : pc) (ie : bool) (fs : store) (m : list Z) : Prop :=
  let np := new_packet fs in
  let f := has_new_packet fs in
  match p with
  | FwdCopy i => ie = true /\ 0 <= i <= 10 /\
      (f = false -> take (Z.to_nat i) m = take (Z.to_nat i) (drop 2 np))
  | FwdCrc => ie = true /\ (f = false -> take 10 m = take 10 (drop 2 np))
  | FwdWait | FwdSend => ie = true /\ m = seal (take 10 m) /\ (f = false -> m = fwd_message np)
  | RawCopy i => ie = true /\ 0 <= i <= 12 /\
      (f = false -> take (Z.to_nat i) m = take (Z.to_nat i) (drop 2 np))
  | RawWait | RawSend => ie = true /\ (f = false -> m = raw_message np)
  | BootTest i => ie = false /\ 0 <= i <= 132 /\ i mod 6 = 0 /\ (i <> 0 -> f = false)
  | BootBody i => ie = false /\ 0 <= i <= 126 /\ i mod 6 = 0 /\ f = false
  | GpsTest i => ie = false /\ 2 <= i <= 128 /\ i mod 7 = 2
  | GpsBody i => ie = false /\ 2 <= i <= 121 /\ i mod 7 = 2
  | BootSei | GpsSei => ie = false
  | _ => ie = true
  end.

(** The invariant of the reachable states. *)
Definition inv (s : state) : Prop :=
  window_wf (win s) /\ store_wf (mbox s) /\ length (msg s) = 12%nat /\
  blue_line (trace s) = leds_toggle s /\ pc_ok (pc_of s) (sreg_i s) (mbox s) (msg s).

(** A message sent is 12 bytes (the [message_t] record). *)
Definition event_ok (e : event) : Prop :=
  match e with
  | Send m => length m = 12%nat /\ Forall byte_ok m
  | _ => True
  end.

(** What a statement of the main loop does to the invariant: it keeps it,
    or it is the over-read of line 117. *)
Definition step_ok (s : state) : Prop :=
  match main_step s with
  | Some s' => inv s'
  | None => pc_of s = BootBody 126
  end.

End Sys.

(** ** The invariant, statement by statement *)

Section Inv.
Context `{Transport}.

#[local] Hint Resolve window_init_wf store_init_wf published_wf synced_valid : ohc.

Lemma blue_line_app tr es :
  blue_line (tr ++ es) =
    fold_left (fun b e => match e with Blue b' => b' | _ => b end) es (blue_line tr).
Proof. unfold blue_line. by rewrite fold_left_app. Qed.

(** One more byte of the copy loops of lines 88-89 and 100-101 extends the
    copied prefix. *)
Lemma take_copy_step (m np : list Z) (i : nat) v :
  (i < length m)%nat -> np !! (i + 2)%nat = Some v -> take i m = take i (drop 2 np) ->
  take (S i) (<[i:=v]> m) = take (S i) (drop 2 np).
Proof.
  intros Hi Hv Ht. rewrite (take_S_r (<[i:=v]> m) i v) by (by apply list_lookup_insert_eq).
  rewrite (take_S_r (drop 2 np) i v) by (rewrite lookup_drop; by rewrite Nat.add_comm).
  rewrite take_insert, decide_False by lia. by rewrite Ht.
Qed.

(** The same, at the [Z] index of the C loop: [msg.rawdata[i] =
    new_packet[i+2]] extends the copied prefix to [i + 1] bytes. *)
Lemma copy_prefix_step (m np : list Z) i v :
  length m = 12%nat -> 0 <= i < 12 -> np !! Z.to_nat (i + 2) = Some v ->
  take (Z.to_nat i) m = take (Z.to_nat i) (drop 2 np) ->
  take (Z.to_nat (i + 1)) (<[Z.to_nat i := v]> m) = take (Z.to_nat (i + 1)) (drop 2 np).
Proof.
  intros Hm Hi Hv Ht. replace (Z.to_nat (i + 1)) with (S (Z.to_nat i)) by lia.
  apply take_copy_step; [lia | | done]. rewrite <- Hv. f_equal. lia.
Qed.

(** A frame byte at an offset inside the frame. *)
Lemma frame_load (np : list Z) k :
  length np = 132%nat -> 0 <= k < 132 -> exists v, np.[k] = Some v /\ np !! Z.to_nat k = Some v.
Proof.
  intros Hl Hk. destruct (lookup_lt_is_Some_2 np (Z.to_nat k)) as [v Hv]; [lia|].
  exists v. by rewrite load_nonneg by lia.
Qed.

(** Filling in the CRC keeps a 12-byte message 12 bytes long. *)
Lemma set_crc_length m c :
  length m = 12%nat -> exists m', set_crc m c = Some m' /\ length m' = 12%nat.
Proof. intros Hm. destruct (set_crc_spec m c Hm) as (m' & ? & ? & _). eauto. Qed.

Lemma take_seal d : length d = 10%nat -> take 10 (seal d) = d.
Proof. intros. unfold seal. by apply take_app_length'. Qed.

Lemma fwd_copy_ok w fs l m ie tr i :
  inv (mkState w fs l m ie tr (FwdCopy i)) -> step_ok (mkState w fs l m ie tr (FwdCopy i)).
Proof.
  intros (Hw & Hs & Hm & Hb & Hie & Hi & Hf). pose proof Hs as (Hnp & _).
  unfold step_ok, main_step; cbn [pc_of mbox msg] in *. case_decide as Hlt.
  - unfold MESSAGE_SIZE, CRC_SIZE in Hlt.
    destruct (frame_load (new_packet fs) (i + 2)) as (v & Ev & Hv); [done | lia |].
    rewrite Ev. simpl. rewrite store_in_range by lia. simpl. rewrite u8_small by lia.
    unfold inv; cbn. rewrite length_insert. split_and!; try done; try lia.
    intros Hf0. apply copy_prefix_step; auto with lia.
  - unfold inv; cbn. split_and!; try done. unfold MESSAGE_SIZE, CRC_SIZE in Hlt.
    replace i with 10 in Hf by lia. exact Hf.
Qed.

Lemma fwd_crc_ok w fs l m ie tr :
  inv (mkState w fs l m ie tr FwdCrc) -> step_ok (mkState w fs l m ie tr FwdCrc).
Proof.
  intros (Hw & Hs & Hm & Hb & Hie & Hf).
  unfold step_ok, main_step; cbn [pc_of mbox msg] in *.
  rewrite (set_crc_seal m (take 10 m)) by done. simpl.
  assert (length (take 10 m) = 10%nat) as Hl by (rewrite length_take; lia).
  unfold inv; cbn. rewrite length_seal, take_seal by done. split_and!; try done.
  intros Hf0. unfold fwd_message. by rewrite Hf.
Qed.

Lemma raw_copy_ok w fs l m ie tr i :
  inv (mkState w fs l m ie tr (RawCopy i)) -> step_ok (mkState w fs l m ie tr (RawCopy i)).
Proof.
  intros (Hw & Hs & Hm & Hb & Hie & Hi & Hf). pose proof Hs as (Hnp & _).
  unfold step_ok, main_step; cbn [pc_of mbox msg] in *. case_decide as Hlt.
  - unfold MESSAGE_SIZE in Hlt.
    destruct (frame_load (new_packet fs) (i + 2)) as (v & Ev & Hv); [done | lia |].
    rewrite Ev. simpl. rewrite store_in_range by lia. simpl. rewrite u8_small by lia.
    unfold inv; cbn. rewrite length_insert. split_and!; try done; try lia.
    intros Hf0. apply copy_prefix_step; auto with lia.
  - unfold inv; cbn. split_and!; try done. intros Hf0. unfold MESSAGE_SIZE in Hlt.
    replace i with 12 in Hf by lia. change (Z.to_nat 12) with 12%nat in Hf.
    unfold raw_message. rewrite <- (Hf Hf0).
    symmetry. apply take_ge. lia.
Qed.

Lemma boot_init_ok w fs l m ie tr :
  inv (mkState w fs l m ie tr BootInit) -> step_ok (mkState w fs l m ie tr BootInit).
Proof.
  intros (Hw & Hs & Hm & Hb & Hie). pose proof Hs as (Hnp & _).
  destruct (boot_init_step (mkState w fs l m ie tr BootInit)) as (m' & E & Hm' & _); [done..|].
  unfold step_ok. rewrite E. by unfold inv; cbn.
Qed.

(** The body of the boot-page loop keeps the invariant for [i <= 120] and
    faults at [i = 126], the only other offset the loop test lets in. *)
Lemma boot_body_ok w fs l m ie tr i :
  inv (mkState w fs l m ie tr (BootBody i)) -> step_ok (mkState w fs l m ie tr (BootBody i)).
Proof.
  intros (Hw & Hs & Hm & Hb & Hie & Hi & Hi6 & Hf). pose proof Hs as (Hnp & _).
  unfold step_ok, main_step; cbn [pc_of mbox msg] in *.
  unfold BOOT_PAGE_OFFSET. rewrite store_in_range by lia. cbn -[copy_range Z.to_nat set_crc].
  destruct (decide (i = 126)) as [->|Hne].
  - unfold BOOT_WORD1. rewrite copy_range_oob; [done | lia | ..]; autorewrite with ohc_rw; lia.
  - destruct (copy_range_spec (<[Z.to_nat 1 := i / 2]> m) (new_packet fs) BOOT_WORD1 (3 + i) 0 6)
      as (m2 & Hc & Hl2 & _); unfold BOOT_WORD1 in *; autorewrite with ohc_rw; try ohc_lia.
    rewrite Hc. simpl. destruct (set_crc_length m2 (message_crc m2)) as (m3 & E3 & Hl3);
      [rewrite Hl2, length_insert; lia|].
    rewrite E3. simpl. rewrite u8_small by ohc_lia.
    unfold inv, blue_line in *; cbn; rewrite fold_left_app; cbn. split_and!; try done; ohc_lia.
Qed.

Lemma gps_init_ok w fs l m ie tr :
  inv (mkState w fs l m ie tr GpsInit) -> step_ok (mkState w fs l m ie tr GpsInit).
Proof.
  intros (Hw & Hs & Hm & Hb & Hie).
  destruct (gps_init_step (mkState w fs l m ie tr GpsInit)) as (m' & E & Hm' & _); [done..|].
  unfold step_ok. rewrite E. by unfold inv; cbn.
Qed.

Lemma gps_body_ok w fs l m ie tr i :
  inv (mkState w fs l m ie tr (GpsBody i)) -> step_ok (mkState w fs l m ie tr (GpsBody i)).
Proof.
  intros (Hw & Hs & Hm & Hb & Hie & Hi). pose proof Hs as (Hnp & _).
  unfold step_ok, main_step; cbn [pc_of mbox msg] in *.
  destruct (copy_range_spec m (new_packet fs) GPS_ID i 0 7) as (m1 & Hc & Hl1 & _);
    unfold GPS_ID in *; try ohc_lia.
  rewrite Hc. simpl. destruct (load_in_range m1 0) as [id Hid]; [lia|]. rewrite Hid. simpl.
  case_decide; [unfold inv; cbn; split_and!; try done; ohc_lia|].
  destruct (set_crc_length m1 (message_crc m1)) as (m3 & E3 & Hl3); [lia|].
  rewrite E3. simpl. rewrite u8_small by ohc_lia.
  unfold inv, blue_line in *; cbn; rewrite fold_left_app; cbn. split_and!; try done; ohc_lia.
Qed.

(** The messages a statement sends are the [msg] it leaves. *)
Lemma main_step_events s s' :
  main_step s = Some s' ->
  exists es, trace s' = trace s ++ es /\ forall e, e ∈ es -> event_ok e \/ e = Send (msg s').
Proof.
  destruct s as [w fs l m ie tr p]. intros E. unfold main_step in E; cbn in *.
  destruct p; simplify_option_eq; repeat case_match; simplify_option_eq; cbn;
    first [exists []; split; [by rewrite app_nil_r | intros ? []%elem_of_nil]
          | eexists; split; [reflexivity | intros e He; repeat (apply elem_of_cons in He as [->|He]);
                                          [cbn; first [by left | by right]..| by apply elem_of_nil in He]]].
Qed.

(** The target of [switch(packet_type)] is a statement at which the
    invariant holds with interrupts enabled. *)
Lemma switch_target_ok t fs m : pc_ok (switch_target t) true fs m.
Proof. unfold switch_target. by destruct (packet_kind_of t) as [[]|]; cbn. Qed.

(** Every statement of the main loop keeps the invariant, or is the
    over-read of line 117. *)
Lemma main_step_inv s : inv s -> step_ok s.
Proof.
  destruct s as [w fs l m ie tr p]. intros Hinv.
  destruct p;
    [..| by apply fwd_copy_ok | by apply fwd_crc_ok | | | by apply raw_copy_ok | | |
     by apply boot_init_ok | | | by apply boot_body_ok | | | by apply gps_init_ok | | |
     by apply gps_body_ok | |];
    destruct Hinv as (Hw & Hs & Hm & Hb & Hp); unfold step_ok, main_step, inv; cbn in *;
    destruct_and?; repeat case_match; simplify_bool; unfold blue_line in *; cbn;
    rewrite ?fold_left_app; cbn; unfold SPM_PAGESIZE, PACKET_SIZE in *;
    split_and!; try done; try ohc_lia; try (intros; by eauto); subst; by apply switch_target_ok.
Qed.

(** The receive interrupt keeps [pc_ok]: it runs only with interrupts
    enabled, and it either leaves the store alone or sets the flag. *)
Lemma pc_ok_isr p fs fs' m :
  pc_ok p true fs m -> fs' = fs \/ has_new_packet fs' = true -> pc_ok p true fs' m.
Proof. intros Hp [->|Hf]; [done|]. destruct p; cbn in *; rewrite ?Hf; intuition congruence. Qed.

Lemma isr_inv s rx s' : inv s -> byte_ok rx -> isr_step s rx = Some s' -> inv s'.
Proof.
  destruct s as [w fs l m ie tr p]. intros (Hw & Hs & Hm & Hb & Hp) Hrx.
  unfold isr_step. cbn in *. destruct ie; [|done].
  destruct (isr_sim w fs rx Hw Hs Hrx) as (w' & Hw' & _ & ->). intros [= <-].
  unfold inv; cbn. split_and!; try done.
  - case_match; [eauto with ohc|done].
  - apply (pc_ok_isr _ fs); [done|]. case_match; [by right|by left].
Qed.

Lemma inv_init : inv state_init.
Proof.
  unfold inv, state_init; cbn. split_and!; [eauto with ohc..|done|done].
Qed.

(** Every reachable state satisfies the invariant. *)
(** Every step keeps the invariant. *)
Lemma step_inv s s' : inv s -> step s s' -> inv s'.
Proof.
  intros Hinv Hst. destruct Hst as [s s' E|s rx s' Hrx E].
  - pose proof (main_step_inv s Hinv) as Hok. unfold step_ok in Hok. by rewrite E in Hok.
  - by apply (isr_inv s rx).
Qed.

(** The invariant holds along every execution from a state where it holds. *)
Lemma rtc_inv s0 s : inv s0 -> rtc step s0 s -> inv s.
Proof. intros H0 Hr. induction Hr as [|x y z Hxy _ IH]; [done|]. by apply IH, (step_inv x). Qed.

Lemma reachable_inv s : reachable s -> inv s.
Proof. apply rtc_inv, inv_init. Qed.

(** A schedule whose bytes are bytes runs along the interleaving. *)
Lemma exec_steps es s s' : Forall sched_ok es -> exec es s = Some s' -> rtc step s s'.
Proof.
  intros Hes. revert s. induction Hes as [|[|rx] es He Hes IH]; intros s E; simpl in E.
  - injection E as ->. done.
  - destruct (main_step s) as [s1|] eqn:E1; [|done]. apply rtc_l with s1; [by constructor|auto].
  - destruct (isr_step s rx) as [s1|] eqn:E1; [|done]. apply rtc_l with s1; [by econstructor|auto].
Qed.

(** A state an admissible schedule reaches from start-up is reachable. *)
Lemma exec_reachable es s : Forall sched_ok es -> exec es state_init = Some s -> reachable s.
Proof. apply exec_steps. Qed.

(** A statement executed with interrupts disabled enables them or
    brings the section closer to its end. *)
Lemma cli_step s s' :
  inv s -> sreg_i s = false -> main_step s = Some s' ->
  inv s' /\ (sreg_i s' = true \/ (sreg_i s' = false /\ (cli_measure (pc_of s') < cli_measure (pc_of s))%nat)).
Proof.
  intros Hinv Hie E. pose proof (main_step_inv s Hinv) as Hok. unfold step_ok in Hok. rewrite E in Hok.
  split; [done|]. destruct Hinv as (_ & _ & _ & _ & Hp).
  destruct s as [w fs l m ie tr p]; cbn in *; subst ie.
  destruct p; cbn in Hp; destruct_and?; try discriminate; unfold main_step in E; cbn in E;
    simplify_option_eq; cbn; try (by left);
    repeat case_match; simplify_option_eq; simplify_bool; cbn; unfold SPM_PAGESIZE, PACKET_SIZE in *;
    right; split; try done; rewrite ?u8_small by ohc_lia; ohc_lia.
Qed.

(** From a state with interrupts disabled, the main loop alone enables
    them again within [cli_measure] steps, or faults. *)
Lemma cli_exit n : forall s,
  inv s -> sreg_i s = false -> (cli_measure (pc_of s) <= n)%nat ->
  exists k s', (k <= cli_measure (pc_of s))%nat /\ run k s = Some s' /\
    (sreg_i s' = true \/ (pc_of s' = BootBody 126 /\ main_step s' = None)).
Proof.
  induction n as [|n IH]; intros s Hinv Hie Hn.
  { unfold cli_measure in Hn. repeat case_match; lia. }
  destruct (main_step s) as [s1|] eqn:E.
  - destruct (cli_step s s1 Hinv Hie E) as (Hinv1 & [Hie1 | (Hie1 & Hlt)]).
    + exists 1%nat, s1. split; [unfold cli_measure; repeat case_match; lia|].
      rewrite (run_S 0 s s1 E). by split; [|left].
    + destruct (IH s1 Hinv1 Hie1) as (k & s' & Hk & Er & Hs'); [lia|].
      exists (S k), s'. split; [lia|]. by rewrite (run_S k s s1 E).
  - pose proof (main_step_inv s Hinv) as Hok. unfold step_ok in Hok. rewrite E in Hok.
    exists 0%nat, s. split; [lia|]. by split; [|right].
Qed.

(** The measure is at most 46 in the states where interrupts are off. *)
Lemma cli_measure_bound s : inv s -> sreg_i s = false -> (cli_measure (pc_of s) <= 46)%nat.
Proof.
  intros (_ & _ & _ & _ & Hp) Hie. rewrite Hie in Hp.
  destruct (pc_of s); cbn in *; destruct_and?; try discriminate; ohc_lia.
Qed.

End Inv.

(** ** Properties of the whole program *)

Section Props.
Context `{Transport}.

(** C5: Safety of the whole program.  In every state reachable from
    start-up under any interleaving of received bytes, the only statement
    of the main loop that faults (reads or writes out of range) is the
    [memcpy] of line 117 at [i = 126]; and the receive interrupt, whenever
    it can be taken, never faults. *)
Theorem only_fault_is_overread s rx :
  reachable s -> byte_ok rx ->
  (main_step s = None -> pc_of s = BootBody 126) /\ (sreg_i s = true -> is_Some (isr_step s rx)).
Proof.
  intros Hr Hrx. pose proof (reachable_inv s Hr) as Hinv. split.
  - intros E. pose proof (main_step_inv s Hinv) as Hok. unfold step_ok in Hok. by rewrite E in Hok.
  - intros Hie. destruct Hinv as (Hw & Hs & _). unfold isr_step. rewrite Hie.
    destruct (isr_sim (win s) (mbox s) rx Hw Hs Hrx) as (w' & _ & _ & ->). by eexists.
Qed.

(** C10: The [!has_new_packet] test of the boot-page loop (line 115) is
    dead after its first evaluation: [cli()] on line 114 keeps the receive
    interrupt out, so at every later test the flag is still clear and the
    loop only ends on [i < SPM_PAGESIZE]. *)
Theorem boot_loop_flag_dead s i :
  reachable s -> pc_of s = BootTest i -> i <> 0 ->
  sreg_i s = false /\ has_new_packet (mbox s) = false.
Proof.
  intros Hr Hpc Hi. destruct (reachable_inv s Hr) as (_ & _ & _ & _ & Hp).
  rewrite Hpc in Hp. cbn in Hp. intuition.
Qed.

(** C8: Every message the [PACKET_FORWARDMSG] loop sends (line 92)
    carries in bytes 10-11 the CRC of its first ten bytes, whatever
    frames arrived meanwhile; while no newer packet is pending it is
    exactly bytes 2-11 of the current frame with their CRC: a copy torn by
    a frame arriving during lines 88-89 is never sent. *)
Theorem forward_sends_sealed s :
  reachable s -> pc_of s = FwdSend ->
  main_step s = Some (goto (emit s (send_pulse (msg s))) FwdWait) /\
  msg s = seal (take 10 (msg s)) /\
  (has_new_packet (mbox s) = false -> msg s = fwd_message (new_packet (mbox s))).
Proof.
  intros Hr Hpc. destruct (reachable_inv s Hr) as (_ & _ & _ & _ & Hp).
  rewrite Hpc in Hp. cbn in Hp. unfold main_step. rewrite Hpc. intuition.
Qed.

(** C15: The blue LED line always shows [leds_toggle]: the last write to
    it (lines 82-85) is the current value of the variable, and it is off
    as long as no toggle has been applied. *)
Theorem blue_line_mirrors s : reachable s -> blue_line (trace s) = leds_toggle s.
Proof. intros Hr. by destruct (reachable_inv s Hr) as (_ & _ & _ & ? & _). Qed.

(** C17: Every section with interrupts disabled ends.  In a reachable
    state with the I bit clear (inside the boot-page or GPS handler, after
    [cli()] on line 114 or 130), no interrupt can be taken, and the main
    loop enables interrupts again ([sei()], line 121 or 138) within 46
    statements, unless it first reaches the over-read of line 117, where
    it faults with interrupts still disabled. *)
Theorem cli_sections_end s :
  reachable s -> sreg_i s = false ->
  (forall s'', step s s'' -> main_step s = Some s'') /\
  exists k s', (k <= 46)%nat /\ run k s = Some s' /\
    (sreg_i s' = true \/ (pc_of s' = BootBody 126 /\ main_step s' = None)).
Proof.
  intros Hr Hie. pose proof (reachable_inv s Hr) as Hinv. split.
  - intros s'' Hst. inversion Hst as [? ? E|? rx ? _ E]; subst; [done|]. unfold isr_step in E. by rewrite Hie in E.
  - destruct (cli_exit _ s Hinv Hie (le_n _)) as (k & s' & Hk & E & Hs').
    pose proof (cli_measure_bound s Hinv Hie). exists k, s'. split_and!; [lia | done | done].
Qed.

(** C18: Bounds.  In every reachable state the cursor [packet_head] is
    below [PACKET_SIZE], so its [uint8_t] increment on line 157 never
    wraps, and the loop index [i] of every loop is in the range
    [loop_bounds] gives (at most 132), so its increments by 1, 6 and 7
    never wrap either. *)
Theorem indices_in_range s :
  reachable s ->
  0 <= packet_head (win s) < PACKET_SIZE /\ u8 (packet_head (win s) + 1) = packet_head (win s) + 1 /\
  loop_bounds (pc_of s).
Proof.
  intros Hr. destruct (reachable_inv s Hr) as ((_ & Hh & _) & _ & _ & _ & Hp).
  unfold PACKET_SIZE in *. split_and!; [lia | lia | rewrite u8_small; lia |].
  destruct (pc_of s); cbn in *; intuition.
Qed.

(** C19: The [PACKET_FORWARDRAWMSG] loop (lines 102-108) sends [msg]
    unchanged, and while no newer packet is pending [msg] is exactly bytes
    2-13 of the current frame: a copy torn by a frame arriving during
    lines 100-101 is never sent. *)
Theorem raw_sends_frame s :
  reachable s -> pc_of s = RawSend ->
  main_step s = Some (goto (emit s (send_pulse (msg s))) RawWait) /\
  (has_new_packet (mbox s) = false -> msg s = raw_message (new_packet (mbox s))).
Proof.
  intros Hr Hpc. destruct (reachable_inv s Hr) as (_ & _ & _ & _ & Hp).
  rewrite Hpc in Hp. cbn in Hp. unfold main_step. rewrite Hpc. intuition.
Qed.

End Props.

(** C9: A packet can be dispatched twice.  [has_new_packet] is cleared
    (line 76) before [packet_type] is read (line 77), and the interrupt
    can publish a frame in between.  In [race_schedule] a STOP frame and
    then one LEDTOGGLE frame are received, each exactly once, yet the main
    loop applies the toggle twice: the blue line goes on and off again and
    [leds_toggle] is back to 0. *)
Theorem toggle_applied_twice :
  valid_frame frame_stop /\ valid_frame frame_ex2 /\
  exists s, exec race_schedule state_init = Some s /\ reachable s /\
    trace s = [Blue true; Blue false] /\ leds_toggle s = false /\ pc_of s = Poll.
Proof.
  split; [ohc_decide|]. split; [ohc_decide|].
  destruct (exec race_schedule state_init) as [s|] eqn:E; [|vm_compute in E; discriminate].
  exists s. split; [done|]. split.
  - apply (exec_steps race_schedule); [ohc_decide | exact E].
  - vm_compute in E. injection E as <-. done.
Qed.

(** ** Witnesses, with kilolib's CRC *)

(** C5 witness: a boot-page frame from start-up and 48 statements of the
    main loop reach the over-read. *)
Lemma only_fault_is_overread_witness :
  exists s, exec (after_frame frame_boot 48) state_init = Some s /\ reachable s /\ byte_ok 0 /\
    main_step s = None /\ pc_of s = BootBody 126.
Proof.
  destruct (exec (after_frame frame_boot 48) state_init) as [s|] eqn:E;
    [|vm_compute in E; discriminate].
  assert (Hr : reachable s) by (apply (exec_reachable (after_frame frame_boot 48)); [ohc_decide | exact E]).
  assert (Hn : main_step s = None) by (vm_compute in E; injection E as <-; vm_compute; reflexivity).
  exists s. split_and!; [done | done | ohc_decide | done |].
  apply (only_fault_is_overread s 0 Hr); [ohc_decide | done].
Defined.

(** C10 witness: the second test of the boot-page loop. *)
Lemma boot_loop_flag_dead_witness :
  exists s, exec (after_frame frame_boot 7) state_init = Some s /\ reachable s /\
    pc_of s = BootTest 6 /\ sreg_i s = false /\ has_new_packet (mbox s) = false.
Proof.
  destruct (exec (after_frame frame_boot 7) state_init) as [s|] eqn:E;
    [|vm_compute in E; discriminate].
  assert (Hr : reachable s) by (apply (exec_reachable (after_frame frame_boot 7)); [ohc_decide | exact E]).
  assert (Hp : pc_of s = BootTest 6) by (vm_compute in E; injection E as <-; reflexivity).
  exists s. split_and!; [done | done | done |..];
    apply (boot_loop_flag_dead s 6 Hr Hp); lia.
Defined.

(** C8 witness: the first transmission of a forwarded frame. *)
Lemma forward_sends_sealed_witness :
  exists s, exec (after_frame frame_ex 16) state_init = Some s /\ reachable s /\ pc_of s = FwdSend /\
    main_step s = Some (goto (emit s (send_pulse (msg s))) FwdWait) /\
    msg s = seal (take 10 (msg s)) /\
    (has_new_packet (mbox s) = false -> msg s = fwd_message (new_packet (mbox s))).
Proof.
  destruct (exec (after_frame frame_ex 16) state_init) as [s|] eqn:E;
    [|vm_compute in E; discriminate].
  assert (Hr : reachable s) by (apply (exec_reachable (after_frame frame_ex 16)); [ohc_decide | exact E]).
  assert (Hp : pc_of s = FwdSend) by (vm_compute in E; injection E as <-; reflexivity).
  exists s. split_and!; [done | done | done |..]; apply (forward_sends_sealed s Hr Hp).
Defined.

(** C15 witness: a toggle frame from start-up, dispatched. *)
Lemma blue_line_mirrors_witness :
  exists s, exec (after_frame frame_ex2 4) state_init = Some s /\ reachable s /\
    trace s = [Blue true] /\ blue_line (trace s) = leds_toggle s.
Proof.
  destruct (exec (after_frame frame_ex2 4) state_init) as [s|] eqn:E;
    [|vm_compute in E; discriminate].
  assert (Hr : reachable s) by (apply (exec_reachable (after_frame frame_ex2 4)); [ohc_decide | exact E]).
  assert (Ht : trace s = [Blue true]) by (vm_compute in E; injection E as <-; reflexivity).
  exists s. split_and!; [done | done | done |]. apply (blue_line_mirrors s Hr).
Defined.

(** C18 witness: the GPS loop at [i = 9]. *)
Lemma indices_in_range_witness :
  exists s, exec (after_frame frame_gps 7) state_init = Some s /\ reachable s /\
    pc_of s = GpsTest 9 /\
    0 <= packet_head (win s) < PACKET_SIZE /\ u8 (packet_head (win s) + 1) = packet_head (win s) + 1 /\
    loop_bounds (pc_of s).
Proof.
  destruct (exec (after_frame frame_gps 7) state_init) as [s|] eqn:E;
    [|vm_compute in E; discriminate].
  assert (Hr : reachable s) by (apply (exec_reachable (after_frame frame_gps 7)); [ohc_decide | exact E]).
  assert (Hp : pc_of s = GpsTest 9) by (vm_compute in E; injection E as <-; reflexivity).
  exists s. do 3 (split; [done|]). apply (indices_in_range s Hr).
Defined.

(** C19 witness: the first transmission of a raw-forwarded frame. *)
Lemma raw_sends_frame_witness :
  exists s, exec (after_frame frame_raw 17) state_init = Some s /\ reachable s /\ pc_of s = RawSend /\
    main_step s = Some (goto (emit s (send_pulse (msg s))) RawWait) /\
    (has_new_packet (mbox s) = false -> msg s = raw_message (new_packet (mbox s))).
Proof.
  destruct (exec (after_frame frame_raw 17) state_init) as [s|] eqn:E;
    [|vm_compute in E; discriminate].
  assert (Hr : reachable s) by (apply (exec_reachable (after_frame frame_raw 17)); [ohc_decide | exact E]).
  assert (Hp : pc_of s = RawSend) by (vm_compute in E; injection E as <-; reflexivity).
  exists s. do 3 (split; [done|]). apply (raw_sends_frame s Hr Hp).
Defined.

(** C17 witness: inside the GPS handler, just after [cli()]. *)
Lemma cli_sections_end_witness :
  exists s, exec (after_frame frame_gps 5) state_init = Some s /\ reachable s /\ sreg_i s = false /\
    (forall s'', step s s'' -> main_step s = Some s'') /\
    exists k s', (k <= 46)%nat /\ run k s = Some s' /\
      (sreg_i s' = true \/ (pc_of s' = BootBody 126 /\ main_step s' = None)).
Proof.
  destruct (exec (after_frame frame_gps 5) state_init) as [s|] eqn:E;
    [|vm_compute in E; discriminate].
  assert (Hr : reachable s) by (apply (exec_reachable (after_frame frame_gps 5)); [ohc_decide | exact E]).
  assert (Hie : sreg_i s = false) by (vm_compute in E; injection E as <-; reflexivity).
  exists s. split_and!; [done | done | done |..]; apply (cli_sections_end s Hr Hie).
Defined.

End System.
