(* ===== verification/Contract.v ===== *)
(** * The dispatcher's contract, and its refinement by the code

    The specification (sections 4.3, 5 and 7) describes the main loop as a
    cycle Idle -> Decode -> behaviour -> Idle: it waits for a frame, takes
    it (clearing the availability flag), reads its type, runs the behaviour
    the type selects, and returns to Idle; the two relay behaviours run
    until a fresh frame is available.  [dispatch_step] is that cycle as an
    abstract machine on [astate]: the phase, whether a frame is available,
    and the kind of the frame in the store.  [arrive_step] is what the
    receive interrupt may do to it: nothing, or make a frame (of any kind)
    available.  [abs] maps a state of [Main] to its abstract state; the
    theorem [dispatcher_refines] shows that every statement of the main
    loop is a step of the cycle and every run of the interrupt an arrival,
    so every execution of the program is one of the contract. *)

From stdpp Require Import base list options numbers.
From Stdlib Require Import ZArith Lia.
From S2P Require Import Prelude Detector Mailbox Message Dispatcher System.

Open Scope Z_scope.
Open Scope ohc_scope.

Module Contract.
Import Window Store Msg Main System.

(** Where the dispatcher is in its cycle. *)
Inductive phase :=
| Idle                       (** waiting for a frame (line 75) *)
| Take                       (** a frame is available and is being taken (line 76) *)
| Decode                     (** its type is being read (line 77) *)
| Behave (k : packet_kind).  (** running the behaviour of kind [k] *)

(** The abstract state: the phase, whether a frame is available, and the
    kind of the frame in the store ([None] for a type with no behaviour). *)
Record astate := AState {
  aphase : phase;
  avail : bool;
  akind : option packet_kind
}.

(** The relay behaviours, which end only when a fresh frame is available. *)
Definition relay (k : packet_kind) : bool :=
  match k with
  | PACKET_FORWARDMSG | PACKET_FORWARDRAWMSG => true
  | _ => false
  end.

(** The dispatch cycle. *)
Inductive dispatch_step : astate -> astate -> Prop :=
| poll_empty k : dispatch_step (AState Idle false k) (AState Idle false k)
| poll_take k : dispatch_step (AState Idle true k) (AState Take true k)
| take_clear a k : dispatch_step (AState Take a k) (AState Decode false k)
| decode_behave a k :
    k <> PACKET_STOP -> dispatch_step (AState Decode a (Some k)) (AState (Behave k) a (Some k))
| decode_ignore a k :
    k = None \/ k = Some PACKET_STOP -> dispatch_step (AState Decode a k) (AState Idle a k)
| behave_stay a k t : dispatch_step (AState (Behave k) a t) (AState (Behave k) a t)
| behave_done a k t :
    (relay k = true -> a = true) -> dispatch_step (AState (Behave k) a t) (AState Idle a t).

(** What the arrival of bytes may do: nothing visible, or make a frame
    available, in any phase. *)
Inductive arrive_step : astate -> astate -> Prop :=
| arrive_none x : arrive_step x x
| arrive_frame ph a k k' : arrive_step (AState ph a k) (AState ph true k').

(** The phase of each statement of the main loop. *)
Definition phase_of (p : pc) : phase :=
  match p with
  | Poll => Idle
  | Clear => Take
  | Switch => Decode
  | Toggle => Behave PACKET_LEDTOGGLE
  | FwdCopy _ | FwdCrc | FwdWait | FwdSend => Behave PACKET_FORWARDMSG
  | RawCopy _ | RawWait | RawSend => Behave PACKET_FORWARDRAWMSG
  | BootInit | BootCli | BootTest _ | BootBody _ | BootSei | BootBlink => Behave PACKET_BOOTPAGE
  | GpsInit | GpsCli | GpsTest _ | GpsBody _ | GpsSei | GpsBlink => Behave PACKET_GPSFRAME
  end.

(** The abstraction of a program state. *)
Definition abs (s : state) : astate :=
  AState (phase_of (pc_of s)) (has_new_packet (mbox s)) (packet_kind_of (packet_type (mbox s))).

Section Refinement.
Context `{Transport}.

(** [switch(packet_type)] goes to the behaviour of the kind it reads. *)
Lemma switch_target_step a t :
  dispatch_step (AState Decode a (packet_kind_of t))
                (AState (phase_of (switch_target t)) a (packet_kind_of t)).
Proof.
  unfold switch_target. destruct (packet_kind_of t) as [[]|]; cbn;
    first [by apply decode_ignore; auto | by apply decode_behave].
Qed.

(** The receive interrupt either leaves the store alone or publishes a
    frame with the flag set. *)
Lemma isr_store w fs rx w' fs' :
  USART_RX_vect w fs rx = Some (w', fs') -> fs' = fs \/ has_new_packet fs' = true.
Proof.
  unfold USART_RX_vect. intros E. simplify_option_eq; repeat case_match; simplify_option_eq; auto.
Qed.

(** C20: Refinement of the dispatcher's contract.  Every statement of the
    main loop is a step of the dispatch cycle of the specification: it
    takes a frame only when one is available, clears the flag when it
    takes it, runs the behaviour of the kind it reads (nothing for
    [PACKET_STOP] and unknown types), never passes from one behaviour to
    another, and leaves a relay behaviour only when a fresh frame is
    available.  Every run of the receive interrupt leaves the phase alone
    and at most makes a frame available. *)
Theorem dispatcher_refines :
  (forall s s', main_step s = Some s' -> dispatch_step (abs s) (abs s')) /\
  (forall s rx s', isr_step s rx = Some s' -> arrive_step (abs s) (abs s')).
Proof.
  split.
  - intros [w [np t f] l m ie tr p] s' E. unfold main_step in E. cbn in E.
    destruct p; simplify_option_eq; repeat case_match; simplify_option_eq; unfold abs; cbn;
      try apply switch_target_step; try (apply behave_done; by cbn); constructor.
  - intros s rx s' E. unfold isr_step in E. destruct (sreg_i s); [|done].
    destruct (USART_RX_vect (win s) (mbox s) rx) as [[w fs]|] eqn:Ev; simpl in E; [|done].
    injection E as <-. destruct (isr_store _ _ _ _ _ Ev) as [->|Hf].
    + unfold abs. destruct s; cbn. apply arrive_none.
    + unfold abs. destruct s; cbn. rewrite Hf. apply arrive_frame.
Qed.

End Refinement.

End Contract.
