(* ===== verification/Startup.v ===== *)
(** * Start-up: the power-on blink before the main loop

    Lines 64-72 of [main] in [src/ohc.c].  After the bring-up of lines
    36-61 (modelled in [Hardware.v]), the loop of lines 64-72 on the [uint8_t] [i] turns the
    blue and the green LED on and then off, five times; the [_delay_ms]
    calls change no state and are left out.  [power_on_blink] is that loop
    with [for_up]; [boot_state tr] is the state at line 74 once it has
    written the events [tr].  The receive interrupt may already run during
    the blink, but the blink writes only the LED ports, so a run of the
    handler during it has the same effect as a run just before the first
    statement of the main loop, which [step] allows: the executions from
    [boot_state] are those of the whole program. *)

From stdpp Require Import base list options numbers relations.
From Stdlib Require Import ZArith Lia.
From S2P Require Import Prelude Detector Mailbox Message Dispatcher System.

Open Scope Z_scope.
Open Scope ohc_scope.

Module Startup.
Import Window Store Msg Main System.

(** One iteration of lines 65-71: both LEDs on, then both off. *)
Definition blink_body (i : Z) (tr : list event) : option (list event) :=
  Some (tr ++ [Blue true; Green true; Blue false; Green false]).

(** [for (i=0; i<5; i++)], lines 64-72, from an empty trace. *)
Definition power_on_blink : option (list event) := for_up 6 0 5 blink_body [].

(** The state at line 74 after the blink wrote [tr]. *)
Definition boot_state (tr : list event) : state := emit state_init tr.

Section Lemmas.
Context `{Transport}.

(** A step only appends to the trace. *)
Lemma step_trace s s' : step s s' -> trace s `prefix_of` trace s'.
Proof.
  intros [s1 s2 E|s1 rx s2 _ E].
  - destruct (main_step_events s1 s2 E) as (es & -> & _). by exists es.
  - unfold isr_step in E. destruct (sreg_i s1); [|done].
    destruct (USART_RX_vect (win s1) (mbox s1) rx) as [[w fs]|]; simpl in E; [|done].
    injection E as <-. by destruct s1.
Qed.

Lemma rtc_trace s s' : rtc step s s' -> trace s `prefix_of` trace s'.
Proof.
  intros Hr. induction Hr as [|x y z Hxy _ IH]; [done|].
  by etrans; [apply step_trace|].
Qed.

(** The invariant holds at line 74 when the blink leaves the blue LED off. *)
Lemma inv_boot tr : blue_line tr = false -> inv (boot_state tr).
Proof.
  intros Hb. unfold inv, boot_state, state_init, emit; cbn.
  split_and!; [apply window_init_wf | apply store_init_wf | done | done | done].
Qed.

End Lemmas.

Section Props.
Context `{Transport}.

(** C21: Start-up.  The loop of lines 64-72 runs its five iterations and
    writes exactly five on-off pulses of both LEDs, leaving the blue LED
    off; composed with the main loop and the interrupt, every execution
    from the end of the blink keeps those pulses at the head of the trace,
    and in every state it reaches the blue LED shows [leds_toggle] and the
    invariant of [System] holds. *)
Theorem startup_then_loop :
  exists tr, power_on_blink = Some tr /\
    tr = concat (replicate 5 [Blue true; Green true; Blue false; Green false]) /\
    forall s, rtc step (boot_state tr) s ->
      tr `prefix_of` trace s /\ blue_line (trace s) = leds_toggle s /\ inv s.
Proof.
  exists (concat (replicate 5 [Blue true; Green true; Blue false; Green false])).
  split; [reflexivity|]. split; [reflexivity|]. intros s Hr.
  assert (Hb : blue_line (concat (replicate 5 [Blue true; Green true; Blue false; Green false])) = false)
    by reflexivity.
  pose proof (rtc_inv _ s (inv_boot _ Hb) Hr) as Hinv. split_and!.
  - exact (rtc_trace _ s Hr).
  - by destruct Hinv as (_ & _ & _ & ? & _).
  - done.
Qed.

End Props.

End Startup.
