(* ===== verification/Hardware.v ===== *)
(** * Hardware: the I/O registers, their bring-up, and the LED ports

    Lines 28-61 and the LED statements of [main] in [src/ohc.c].  The
    registers of the ATmega328P that the program writes are the values of
    [ioreg], a function from the register names [reg] to [Z]; a C statement
    [R = v], [R |= v] or [R &= v] is [assign], [or_assign] or [and_assign],
    and [~v] is [Z.lnot v].  [cli()] and [sei()] clear and set the I bit of
    [SREG].  [bring_up] is lines 36-61 statement by statement, with
    [UBRR_VALUE] and [USE_2X] (computed by [<util/setbaud.h>] from [F_CPU]
    and [BAUD] at compile time) as its parameters; it returns the registers
    and the value it gives kilolib's [tx_mask].  [led_write] is what one LED
    event of [Main] does to [PORTD] ([blue_port]) or [PORTB] ([green_port]),
    and [ports_after] replays a whole trace on the registers.

    The bit numbers of [<avr/iom328p.h>] and the reset values of the data
    sheet are not in [src/] and are written from the device's header. *)

From stdpp Require Import base list options numbers relations.
From Stdlib Require Import ZArith Lia.
From S2P Require Import Prelude Detector Mailbox Message Dispatcher System Startup.

Open Scope Z_scope.
Open Scope ohc_scope.

Module Hw.
Import Window Store Msg Main System Startup.

(** The I/O registers the program writes. *)
Inductive reg :=
| DDRB | DDRD | PORTB | PORTD | ACSR | MCUCR | UBRR0 | UCSR0A | UCSR0B | UCSR0C | SREG.

#[export] Instance reg_eq_dec : EqDecision reg.
Proof. solve_decision. Defined.

Definition ioreg := reg -> Z.

(** [R = v], [R |= v] and [R &= v]. *)
Definition assign (r : ioreg) (k : reg) (v : Z) : ioreg :=
  fun k' => if decide (k' = k) then v else r k'.
Definition or_assign (r : ioreg) (k : reg) (v : Z) : ioreg := assign r k (Z.lor (r k) v).
Definition and_assign (r : ioreg) (k : reg) (v : Z) : ioreg := assign r k (Z.land (r k) v).

(** Bit numbers of [<avr/iom328p.h>]. *)
Definition ACD : Z := 7.
Definition IVCE : Z := 0.
Definition IVSEL : Z := 1.
Definition U2X0 : Z := 1.
Definition UCSZ00 : Z := 1.
Definition UCSZ01 : Z := 2.
Definition TXEN0 : Z := 3.
Definition RXEN0 : Z := 4.
Definition RXCIE0 : Z := 7.
Definition SREG_I : Z := 7.

(** [#define ir_mask (1<<3)], [blue_mask (1<<2)], [green_mask (1<<1)]. *)
Definition ir_mask : Z := Z.shiftl 1 3.
Definition blue_mask : Z := Z.shiftl 1 2.
Definition green_mask : Z := Z.shiftl 1 1.

(** The values after reset (data sheet, section 20.11): [UDRE0] set in
    [UCSR0A], [UCSZ01:0] set in [UCSR0C], every other register zero. *)
Definition reset_regs : ioreg :=
  fun k => match k with UCSR0A => 32 | UCSR0C => 6 | _ => 0 end.

(** [cli()] and [sei()]. *)
Definition cli (r : ioreg) : ioreg := and_assign r SREG (Z.lnot (Z.shiftl 1 SREG_I)).
Definition sei (r : ioreg) : ioreg := or_assign r SREG (Z.shiftl 1 SREG_I).

(** Lines 36-61 of [main]: the registers after the bring-up, and the value
    given to [tx_mask]. *)
Definition bring_up (UBRR_VALUE : Z) (USE_2X : bool) (r : ioreg) : ioreg * Z :=
  let r := cli r in
  let r := assign r DDRB (Z.lor (Z.shiftl 1 1) (Z.shiftl 1 2)) in
  let r := assign r DDRD (Z.lor (Z.shiftl 1 2) (Z.shiftl 1 3)) in
  let r := and_assign r PORTD (Z.lnot ir_mask) in
  let r := or_assign r ACSR (Z.shiftl 1 ACD) in
  let r := assign r MCUCR (Z.shiftl 1 IVCE) in
  let r := assign r MCUCR (Z.shiftl 1 IVSEL) in
  let r := assign r UBRR0 UBRR_VALUE in
  let r := if USE_2X then or_assign r UCSR0A (Z.shiftl 1 U2X0)
           else and_assign r UCSR0A (Z.lnot (Z.shiftl 1 U2X0)) in
  let r := or_assign r UCSR0C (Z.lor (Z.shiftl 1 UCSZ01) (Z.shiftl 1 UCSZ00)) in
  let r := or_assign r UCSR0B
             (Z.lor (Z.lor (Z.shiftl 1 RXCIE0) (Z.shiftl 1 RXEN0)) (Z.shiftl 1 TXEN0)) in
  let r := sei r in
  (r, ir_mask).

(** The port write of an event: [blue_port |= blue_mask],
    [blue_port &= ~blue_mask] and the same on [green_port].  A [Send] is
    kilolib's [message_send], which drives the IR pin through [tx_mask]
    and is not modelled here. *)
Definition led_write (r : ioreg) (e : event) : ioreg :=
  match e with
  | Blue true => or_assign r PORTD blue_mask
  | Blue false => and_assign r PORTD (Z.lnot blue_mask)
  | Green true => or_assign r PORTB green_mask
  | Green false => and_assign r PORTB (Z.lnot green_mask)
  | Send _ => r
  end.

(** The registers after the writes of a trace. *)
Definition ports_after (r : ioreg) (tr : list event) : ioreg := fold_left led_write tr r.

(** The level an event gives the blue and the green line. *)
Definition blue_level (b : bool) (e : event) : bool := match e with Blue b' => b' | _ => b end.
Definition green_level (b : bool) (e : event) : bool := match e with Green b' => b' | _ => b end.

(** The green line after a trace, as [blue_line] for the blue one. *)
Definition green_line (tr : list event) : bool := fold_left green_level tr false.

(** ** Tactics *)

(** Evaluate the register updates of a straight-line sequence, keeping
    the bit operations and the bit numbers folded. *)
Ltac regs_simpl :=
  lazy -[Z.shiftl Z.lor Z.land Z.lnot Z.testbit Z.eqb ACD IVCE IVSEL U2X0 UCSZ00 UCSZ01
         TXEN0 RXEN0 RXCIE0 SREG_I ir_mask blue_mask green_mask].

(** Decide a statement on the bits of the registers. *)
Ltac reg_bits :=
  unfold ir_mask, blue_mask, green_mask, ACD, IVCE, IVSEL, U2X0, UCSZ00, UCSZ01,
    TXEN0, RXEN0, RXCIE0, SREG_I in *;
  intros; autorewrite with ohc_bits;
  rewrite ?Z.lor_spec, ?testbit_shiftl_1 by lia;
  repeat match goal with |- context [?a =? ?b] => destruct (Z.eqb_spec a b); subst; try lia end;
  rewrite ?orb_true_r, ?orb_false_r; try reflexivity.

(** ** The LED writes *)

Lemma led_write_PORTD r e i :
  Z.testbit (led_write r e PORTD) i =
    if i =? 2 then blue_level (Z.testbit (r PORTD) 2) e else Z.testbit (r PORTD) i.
Proof. destruct e as [m|[]|[]]; regs_simpl; reg_bits. Qed.

Lemma led_write_PORTB r e i :
  Z.testbit (led_write r e PORTB) i =
    if i =? 1 then green_level (Z.testbit (r PORTB) 1) e else Z.testbit (r PORTB) i.
Proof. destruct e as [m|[]|[]]; regs_simpl; reg_bits. Qed.

Lemma led_write_other r e k : k <> PORTD -> k <> PORTB -> led_write r e k = r k.
Proof. intros HD HB. destruct e as [m|[]|[]]; unfold led_write, or_assign, and_assign, assign; by repeat case_decide. Qed.

(** Replaying a trace: bit 2 of [PORTD] and bit 1 of [PORTB] follow the
    LED events, and nothing else changes. *)
Lemma ports_after_PORTD r tr i :
  Z.testbit (ports_after r tr PORTD) i =
    if i =? 2 then fold_left blue_level tr (Z.testbit (r PORTD) 2) else Z.testbit (r PORTD) i.
Proof.
  unfold ports_after. induction tr as [|e tr IH] in r |- *; cbn.
  - destruct (Z.eqb_spec i 2); by subst.
  - rewrite IH, !led_write_PORTD. by destruct (Z.eqb_spec i 2).
Qed.

Lemma ports_after_PORTB r tr i :
  Z.testbit (ports_after r tr PORTB) i =
    if i =? 1 then fold_left green_level tr (Z.testbit (r PORTB) 1) else Z.testbit (r PORTB) i.
Proof.
  unfold ports_after. induction tr as [|e tr IH] in r |- *; cbn.
  - destruct (Z.eqb_spec i 1); by subst.
  - rewrite IH, !led_write_PORTB. by destruct (Z.eqb_spec i 1).
Qed.

Lemma ports_after_other r tr k : k <> PORTD -> k <> PORTB -> ports_after r tr k = r k.
Proof.
  intros HD HB. unfold ports_after. induction tr as [|e tr IH] in r |- *; cbn; [done|].
  by rewrite IH, led_write_other.
Qed.

(** ** The green line between two statements *)

Lemma green_line_app tr es : green_line (tr ++ es) = fold_left green_level es (green_line tr).
Proof. unfold green_line. by rewrite fold_left_app. Qed.

Section Green.
Context `{Transport}.

(** Every statement of the main loop that lights the green LED turns it
    off again before the next one. *)
Lemma main_step_green s s' :
  main_step s = Some s' -> green_line (trace s) = false -> green_line (trace s') = false.
Proof.
  destruct s as [w fs l m ie tr p]. intros E Hg. unfold main_step in E; cbn in *.
  destruct p; simplify_option_eq; repeat case_match; simplify_option_eq; cbn;
    rewrite ?green_line_app; cbn; by rewrite ?Hg.
Qed.

Lemma rtc_green s s' : rtc step s s' -> green_line (trace s) = false -> green_line (trace s') = false.
Proof.
  intros Hr. induction Hr as [|x y z Hxy _ IH]; [done|]. intros Hg. apply IH.
  destruct Hxy as [x y E|x rx y _ E]; [by apply (main_step_green x)|].
  unfold isr_step in E. destruct (sreg_i x); [|done].
  destruct (USART_RX_vect (win x) (mbox x) rx) as [[w fs]|]; simpl in E; [|done].
  injection E as <-. by destruct x.
Qed.

End Green.

(** From reset, the bring-up leaves both LED lines and the IR line low. *)
Lemma bring_up_ports u x :
  fst (bring_up u x reset_regs) PORTD = 0 /\ fst (bring_up u x reset_regs) PORTB = 0.
Proof. by destruct x. Qed.

(** ** Properties *)

(** C22: Hardware bring-up.  Whatever the registers held before, lines
    36-61 make the green, blue and IR pins outputs, give [tx_mask] the IR
    pin's mask, turn the IR LED off and leave the other bits of [PORTD]
    alone, disable the analog comparator, select the boot-section vectors,
    load the baud rate, set [U2X0] exactly when [USE_2X], enable reception,
    its interrupt and transmission, select 8-bit characters, and end with
    interrupts enabled.  The other bits of [UCSR0C] (mode, parity, stop
    bits) keep their previous values. *)
Theorem bring_up_configures UBRR_VALUE USE_2X r :
  let '(r', tx) := bring_up UBRR_VALUE USE_2X r in
  tx = ir_mask /\
  Z.land (r' DDRB) green_mask = green_mask /\
  Z.land (r' DDRD) blue_mask = blue_mask /\ Z.land (r' DDRD) tx = tx /\
  (forall i, Z.testbit (r' PORTD) i = if i =? 3 then false else Z.testbit (r PORTD) i) /\
  Z.testbit (r' ACSR) ACD = true /\
  Z.testbit (r' MCUCR) IVSEL = true /\ Z.testbit (r' MCUCR) IVCE = false /\
  r' UBRR0 = UBRR_VALUE /\
  Z.testbit (r' UCSR0A) U2X0 = USE_2X /\
  Z.testbit (r' UCSR0B) RXCIE0 = true /\ Z.testbit (r' UCSR0B) RXEN0 = true /\
  Z.testbit (r' UCSR0B) TXEN0 = true /\
  Z.testbit (r' UCSR0C) UCSZ01 = true /\ Z.testbit (r' UCSR0C) UCSZ00 = true /\
  (forall i, i <> UCSZ01 -> i <> UCSZ00 -> Z.testbit (r' UCSR0C) i = Z.testbit (r UCSR0C) i) /\
  Z.testbit (r' SREG) SREG_I = true.
Proof. destruct USE_2X; regs_simpl; split_and!; try reflexivity; reg_bits. Qed.

(** C23: The LED events are the port writes.  Replaying a trace on the
    registers, bit 2 of [PORTD] (the blue LED) ends at the level of the
    last [Blue] event and bit 1 of [PORTB] (the green LED) at that of the
    last [Green] event, each keeping its previous level when there is
    none; no other bit of either port, the IR pin included, and no other
    register changes.  So [blue_line] of [System] is the blue pin. *)
Theorem ports_follow_trace r tr :
  Z.testbit (ports_after r tr PORTD) 2 = fold_left blue_level tr (Z.testbit (r PORTD) 2) /\
  Z.testbit (ports_after r tr PORTB) 1 = fold_left green_level tr (Z.testbit (r PORTB) 1) /\
  (forall i, i <> 2 -> Z.testbit (ports_after r tr PORTD) i = Z.testbit (r PORTD) i) /\
  (forall i, i <> 1 -> Z.testbit (ports_after r tr PORTB) i = Z.testbit (r PORTB) i) /\
  (forall k, k <> PORTD -> k <> PORTB -> ports_after r tr k = r k) /\
  Z.testbit (ports_after reset_regs tr PORTD) 2 = blue_line tr.
Proof.
  rewrite !ports_after_PORTD, ports_after_PORTB. cbn. split_and!; try done.
  - intros i Hi. rewrite ports_after_PORTD. by destruct (Z.eqb_spec i 2).
  - intros i Hi. rewrite ports_after_PORTB. by destruct (Z.eqb_spec i 1).
  - apply ports_after_other.
Qed.

Section Props.
Context `{Transport}.

(** C24: The LED pins from power-on.  After the bring-up from reset and
    the power-on blink, in every state the program reaches (main loop and
    receive interrupt interleaved) the blue LED pin shows [leds_toggle],
    the green LED pin is low between two statements, and no LED write has
    raised the IR pin. *)
Theorem leds_follow_state UBRR_VALUE USE_2X tr :
  power_on_blink = Some tr ->
  forall s, rtc step (boot_state tr) s ->
    let r := ports_after (fst (bring_up UBRR_VALUE USE_2X reset_regs)) (trace s) in
    Z.testbit (r PORTD) 2 = leds_toggle s /\ Z.testbit (r PORTB) 1 = false /\
    Z.testbit (r PORTD) 3 = false.
Proof.
  intros Htr s Hr. vm_compute in Htr. injection Htr as Htr.
  assert (Hb0 : blue_line tr = false) by (by subst).
  assert (Hg0 : green_line (trace (boot_state tr)) = false) by (by subst).
  destruct (bring_up_ports UBRR_VALUE USE_2X) as [HD HB].
  pose proof (rtc_inv _ s (inv_boot _ Hb0) Hr) as (_ & _ & _ & Hb & _).
  pose proof (rtc_green _ s Hr Hg0) as Hg.
  cbv zeta. rewrite !ports_after_PORTD, ports_after_PORTB, HD, HB. cbn.
  split_and!; [exact Hb | exact Hg | reflexivity].
Qed.

End Props.

(** C24 witness: a toggle frame received after the power-on blink. *)
Lemma leds_follow_state_witness :
  exists tr s, power_on_blink = Some tr /\
    exec (after_frame frame_ex2 4) (boot_state tr) = Some s /\ leds_toggle s = true /\
    Z.testbit (ports_after (fst (bring_up 12 true reset_regs)) (trace s) PORTD) 2 = true.
Proof.
  destruct power_on_blink as [tr|] eqn:Htr; [|vm_compute in Htr; discriminate].
  destruct (exec (after_frame frame_ex2 4) (boot_state tr)) as [s|] eqn:E;
    [|vm_compute in Htr; injection Htr as <-; vm_compute in E; discriminate].
  assert (Hr : rtc step (boot_state tr) s) by (apply (exec_steps (after_frame frame_ex2 4)); [ohc_decide | exact E]).
  assert (Hl : leds_toggle s = true)
    by (vm_compute in Htr; injection Htr as <-; vm_compute in E; injection E as <-; reflexivity).
  exists tr, s. do 3 (split; [done|]).
  destruct (leds_follow_state 12 true tr Htr s Hr) as (-> & _). exact Hl.
Defined.

End Hw.
